(** * Agglomerative hierarchical clustering (hierarchicalAlgorithm.py)

    A shallow embedding of [hierarchical_clustering] and of its nested
    helpers [_condensed_index], [update_distance_matrix] and
    [merge_clusters].

    - Python integers are [Z]; loop counters produced by [range] are [nat].
    - numpy [float64] values are the kernel's binary64 floats ([PrimFloat]).
    - Python exceptions are the [Raise] results of a small error monad.
    - The linkage method is the string the caller passes.
    - The [while] loop is a recursion on a bound for the number of its
      iterations; [hierarchical_clustering_total] shows the bound suffices. *)

From Stdlib Require Import String ZArith List Bool Lia Sorted Permutation FinFun.
From Stdlib Require Import Floats.
Import ListNotations.

Local Open Scope Z_scope.

(** ** Exceptions and results *)

Inductive exn : Type :=
| IndexError
| UnboundLocalError.

Inductive result (A : Type) : Type :=
| Ok (a : A)
| Raise (e : exn).

Arguments Ok {A} a.
Arguments Raise {A} e.

Definition bind {A B : Type} (r : result A) (k : A -> result B) : result B :=
  match r with
  | Ok a => k a
  | Raise e => Raise e
  end.

Notation "x <- r ;; k" := (bind r (fun x => k))
  (at level 61, r at next level, right associativity).

(** ** Python sequences *)

Module Py.

(** [len(l)] *)
Definition len {A : Type} (l : list A) : Z := Z.of_nat (length l).

(** [l[k]] for an integer [k]: a negative [k] counts from the end, and an
    index outside [-len(l), len(l)) raises IndexError. *)
Definition get {A : Type} (l : list A) (k : Z) : result A :=
  let k' := if k <? 0 then k + len l else k in
  if k' <? 0 then Raise IndexError
  else match nth_error l (Z.to_nat k') with
       | Some x => Ok x
       | None => Raise IndexError
       end.

(** [l[i]] for a counter [i] that comes from [range] or [enumerate]. *)
Definition item {A : Type} (l : list A) (i : nat) : result A :=
  match nth_error l i with
  | Some x => Ok x
  | None => Raise IndexError
  end.

(** The position a slice bound [k] denotes in a sequence of length [n]. *)
Definition bound (n k : Z) : nat :=
  Z.to_nat (if k <? 0 then Z.max 0 (n + k) else Z.min k n).

(** [l[:k]] *)
Definition slice_to {A : Type} (l : list A) (k : Z) : list A :=
  firstn (bound (len l) k) l.

(** [l[k:]] *)
Definition slice_from {A : Type} (l : list A) (k : Z) : list A :=
  skipn (bound (len l) k) l.

(** [list(range(n))] *)
Definition range (n : nat) : list nat := seq 0 n.

(** [list(range(lo, hi))] *)
Definition range2 (lo hi : nat) : list nat := seq lo (hi - lo).

End Py.

(** ** The condensed index *)

(** [_condensed_index(n, i, j)]; [//] is floor division. *)
Definition _condensed_index (n i j : Z) : Z :=
  if i <? j then n * i - (i * (i + 1) / 2) + (j - i - 1)
  else if i >? j then n * j - (j * (j + 1) / 2) + (i - j - 1)
  else 0.

(** ** Floating point *)

Definition float64 : Type := float.

(** The conversion numpy applies to a Python integer operand (sizes and
    identifiers, all far below 2^63). *)
Definition of_int (z : Z) : float64 := PrimFloat.of_uint63 (Uint63.of_Z z).

Definition is_nan (x : float64) : bool := PrimFloat.is_nan x.

(** Python's [min(x, y)] and [max(x, y)]: the first argument is kept unless
    the second compares strictly below (above) it. *)
Definition py_min (x y : float64) : float64 := if (y <? x)%float then y else x.
Definition py_max (x y : float64) : float64 := if (x <? y)%float then y else x.

(** [x**2] *)
Definition sq (x : float64) : float64 := (x * x)%float.

(** ** Clusters, merge events and the engine state *)

(** A cluster is the pair [(identifier, members)]. *)
Definition cluster : Type := (Z * list Z)%type.

(** A row appended to [linkage_matrix]:
    [[clusters[a][0], clusters[b][0], min_dist, len(...) + len(...)]]. *)
Definition merge_event : Type := (Z * Z * float64 * Z)%type.

(** The local variables of [hierarchical_clustering] that the [while] loop
    reads and rebinds.  [ab] holds the variables [a] and [b], which are
    unbound until the pair scan first assigns them and keep their values
    from one iteration to the next. *)
Record state : Type := mkState {
  clusters : list cluster;
  dist_vector : list float64;
  linkage_matrix : list merge_event;
  index : Z;
  ab : option (nat * nat)
}.

(** ** Initial distances *)

(** The Euclidean distance scipy's [pdist] computes for one pair of rows:
    the squared differences are accumulated left to right, then rooted. *)
Definition euclidean (u v : list float64) : float64 :=
  PrimFloat.sqrt
    (fold_left (fun s xy => (s + sq (fst xy - snd xy))%float) (combine u v) 0%float).

(** [scipy.spatial.distance.pdist(data)]: the distances of the pairs
    (0,1), (0,2), ..., (1,2), ... in that order. *)
Fixpoint pdist (data : list (list float64)) : list float64 :=
  match data with
  | [] => []
  | u :: rest => map (euclidean u) rest ++ pdist rest
  end.

Definition compute_distance_matrix (data : list (list float64)) : list float64 :=
  pdist data.

(** ** The Lance-Williams update *)

Definition known_method (method : string) : bool :=
  existsb (String.eqb method) ["single"; "complete"; "average"; "centroid"; "ward"]%string.

(** The body of the [for i in range(n)] loop of [update_distance_matrix] for
    an [i] that passed the test [i != a and i != b]: the value appended to
    [new_distances].  When no branch of the [if]/[elif] chain matches,
    [new_dist] is still unbound at the [append]. *)
Definition new_dist_for (dist_vector : list float64) (n : Z) (a b : nat)
    (cluster_a_size cluster_b_size : Z) (clusters : list cluster)
    (method : string) (i : nat) : result float64 :=
  da <- Py.get dist_vector (_condensed_index n (Z.of_nat a) (Z.of_nat i)) ;;
  db <- Py.get dist_vector (_condensed_index n (Z.of_nat b) (Z.of_nat i)) ;;
  if (method =? "single")%string then Ok (py_min da db)
  else if (method =? "complete")%string then Ok (py_max da db)
  else if (method =? "average")%string then
    Ok ((of_int cluster_a_size * da + of_int cluster_b_size * db)
        / of_int (cluster_a_size + cluster_b_size))%float
  else if (method =? "centroid")%string then
    dab <- Py.get dist_vector (_condensed_index n (Z.of_nat a) (Z.of_nat b)) ;;
    Ok (PrimFloat.sqrt
          ((of_int cluster_a_size * sq da + of_int cluster_b_size * sq db)
           / of_int (cluster_a_size + cluster_b_size)
           - (of_int (cluster_a_size * cluster_b_size) * sq dab)
             / of_int ((cluster_a_size + cluster_b_size) ^ 2)))%float
  else if (method =? "ward")%string then
    ci <- Py.item clusters i ;;
    dab <- Py.get dist_vector (_condensed_index n (Z.of_nat a) (Z.of_nat b)) ;;
    Ok (PrimFloat.sqrt
          ((of_int (cluster_a_size + Py.len (snd ci)) * sq da
            + of_int (cluster_b_size + Py.len (snd ci)) * sq db
            - of_int (Py.len (snd ci)) * sq dab)
           / of_int (cluster_a_size + cluster_b_size + Py.len (snd ci))))%float
  else Raise UnboundLocalError.

(** The [for i in range(n)] loop, with [new_distances] as accumulator. *)
Fixpoint update_loop (body : nat -> result float64) (a b : nat)
    (slots : list nat) (new_distances : list float64) : result (list float64) :=
  match slots with
  | [] => Ok new_distances
  | i :: rest =>
      if negb (Nat.eqb i a) && negb (Nat.eqb i b) then
        new_dist <- body i ;;
        update_loop body a b rest (new_distances ++ [new_dist])
      else update_loop body a b rest new_distances
  end.

Definition update_distance_matrix (dist_vector : list float64) (a b : nat)
    (clusters : list cluster) (method : string) : result (list float64) :=
  let n := Py.len clusters in
  ca <- Py.item clusters a ;;
  let cluster_a_size := Py.len (snd ca) in
  cb <- Py.item clusters b ;;
  let cluster_b_size := Py.len (snd cb) in
  update_loop
    (new_dist_for dist_vector n a b cluster_a_size cluster_b_size clusters method)
    a b (Py.range (length clusters)) [].

(** ** Merging two clusters *)

(** [[c for i, c in enumerate(clusters) if i not in (a, b)]], with [i]
    counting from [start]. *)
Fixpoint without_slots (a b : nat) (start : nat) (clusters : list cluster)
    : list cluster :=
  match clusters with
  | [] => []
  | c :: rest =>
      if Nat.eqb start a || Nat.eqb start b
      then without_slots a b (S start) rest
      else c :: without_slots a b (S start) rest
  end.

Definition merge_clusters (clusters : list cluster) (a b : nat) (index : Z)
    : result (list cluster) :=
  let new_cluster_id := index in
  ca <- Py.item clusters a ;;
  cb <- Py.item clusters b ;;
  let new_cluster := (new_cluster_id, snd ca ++ snd cb) in
  Ok (without_slots a b 0 clusters ++ [new_cluster]).

(** ** Pair selection *)

(** [dist_vector[_condensed_index(n, clusters[i][1][0], clusters[j][1][0])]]
    where [n] is the number of input points. *)
Definition pair_distance (n : Z) (dist_vector : list float64)
    (clusters : list cluster) (i j : nat) : result float64 :=
  ci <- Py.item clusters i ;;
  pi <- Py.get (snd ci) 0 ;;
  cj <- Py.item clusters j ;;
  pj <- Py.get (snd cj) 0 ;;
  Py.get dist_vector (_condensed_index n pi pj).

(** The pairs [(i, j)] the two nested [for] loops visit, in visiting order. *)
Definition scan_order (m : nat) : list (nat * nat) :=
  flat_map (fun i => map (pair i) (Py.range2 (S i) m)) (Py.range m).

(** The nested loops over a list of pairs still to visit; the accumulator is
    [min_dist] together with the current binding of [a] and [b]. *)
Fixpoint scan_pairs (n : Z) (dist_vector : list float64) (clusters : list cluster)
    (pairs : list (nat * nat)) (min_dist : float64) (ab : option (nat * nat))
    : result (float64 * option (nat * nat)) :=
  match pairs with
  | [] => Ok (min_dist, ab)
  | (i, j) :: rest =>
      dist <- pair_distance n dist_vector clusters i j ;;
      if (dist <? min_dist)%float
      then scan_pairs n dist_vector clusters rest dist (Some (i, j))
      else scan_pairs n dist_vector clusters rest min_dist ab
  end.

Definition select_pair (n : Z) (st : state) : result (float64 * option (nat * nat)) :=
  scan_pairs n (dist_vector st) (clusters st)
    (scan_order (length (clusters st))) infinity (ab st).

(** ** The main loop *)

(** Reading the variables [a] and [b]. *)
Definition read_ab (ab : option (nat * nat)) : result (nat * nat) :=
  match ab with
  | Some p => Ok p
  | None => Raise UnboundLocalError
  end.

(** One iteration of the [while] loop. *)
Definition loop_body (n : Z) (method : string) (st : state) : result state :=
  sel <- select_pair n st ;;
  let min_dist := fst sel in
  p <- read_ab (snd sel) ;;
  let a := fst p in
  let b := snd p in
  ca <- Py.item (clusters st) a ;;
  cb <- Py.item (clusters st) b ;;
  let row := (fst ca, fst cb, min_dist, Py.len (snd ca) + Py.len (snd cb)) in
  new_distances <- update_distance_matrix (dist_vector st) a b (clusters st) method ;;
  clusters' <- merge_clusters (clusters st) a b (index st) ;;
  let k := _condensed_index n (Z.of_nat a) (Z.of_nat b) in
  Ok {| clusters := clusters';
        dist_vector := Py.slice_to (dist_vector st) k
                       ++ Py.slice_from (dist_vector st) (k + 1)
                       ++ new_distances;
        linkage_matrix := linkage_matrix st ++ [row];
        index := index st + 1;
        ab := Some (a, b) |}.

(** [while len(clusters) > num_clusters: ...].  [None] means that [fuel]
    iterations were not enough to leave the loop. *)
Fixpoint while_loop (fuel : nat) (n : Z) (method : string) (num_clusters : Z)
    (st : state) : option (result state) :=
  if Py.len (clusters st) >? num_clusters then
    match fuel with
    | O => None
    | S fuel' =>
        match loop_body n method st with
        | Ok st' => while_loop fuel' n method num_clusters st'
        | Raise e => Some (Raise e)
        end
    end
  else Some (Ok st).

(** ** The returned linkage matrix *)

(** A row of [np.array(linkage_matrix)]: the integer entries become floats. *)
Definition array_row (r : merge_event) : list float64 :=
  match r with
  | (id_a, id_b, min_dist, size) => [of_int id_a; of_int id_b; min_dist; of_int size]
  end.

(** Column 2 of a row of the array. *)
Definition distance_of (row : list float64) : float64 := nth 2 row nan.

(** The order numpy sorts floats by: not-a-number sorts last. *)
Definition np_lt (x y : float64) : bool :=
  (x <? y)%float || (is_nan y && negb (is_nan x)).

(** Rows reordered by [argsort] of their distances, here a stable insertion
    sort (the order numpy gives to rows of equal distance is not part of its
    interface). *)
Fixpoint insert_row (row : list float64) (sorted : list (list float64))
    : list (list float64) :=
  match sorted with
  | [] => [row]
  | row' :: rest =>
      if np_lt (distance_of row') (distance_of row)
      then row' :: insert_row row rest
      else row :: sorted
  end.

Definition sort_by_distance (rows : list (list float64)) : list (list float64) :=
  fold_right insert_row [] rows.

(** [linkage_matrix = np.array(linkage_matrix)] followed by
    [linkage_matrix[linkage_matrix[:, 2].argsort()]].  The array built from an
    empty list has one dimension, so indexing it with [[:, 2]] raises. *)
Definition sorted_linkage (linkage_matrix : list merge_event)
    : result (list (list float64)) :=
  match linkage_matrix with
  | [] => Raise IndexError
  | _ :: _ => Ok (sort_by_distance (map array_row linkage_matrix))
  end.

(** ** The entry point *)

(** The state before the first iteration: one singleton cluster per row. *)
Definition initial_state (data : list (list float64)) : state :=
  {| clusters := map (fun i => (Z.of_nat i, [Z.of_nat i])) (Py.range (length data));
     dist_vector := compute_distance_matrix data;
     linkage_matrix := [];
     index := Py.len data;
     ab := None |}.

(** [hierarchical_clustering(df, method, num_clusters)] with [data = df.values]. *)
Definition hierarchical_clustering (data : list (list float64)) (method : string)
    (num_clusters : Z) : option (result (list (list float64) * list cluster)) :=
  let n := Py.len data in
  match while_loop (S (length data)) n method num_clusters (initial_state data) with
  | None => None
  | Some (Raise e) => Some (Raise e)
  | Some (Ok st) =>
      Some (rows <- sorted_linkage (linkage_matrix st) ;; Ok (rows, clusters st))
  end.

(** The four one-dimensional points 0, 1, 5, 6. *)
Definition four_points : list (list float64) :=
  [[0%float]; [1%float]; [5%float]; [6%float]].


(** The four one-dimensional points 0, 2, 6, 3. *)
Definition centroid_points : list (list float64) :=
  [[0%float]; [2%float]; [6%float]; [3%float]].

(** The state after the first merge on [four_points] with single linkage. *)
Definition after_first_merge : state :=
  {| clusters := [(2, [2]); (3, [3]); (4, [0; 1])];
     dist_vector := [5; 6; 4; 5; 1; 4; 5]%float;
     linkage_matrix := [(0, 1, 1%float, 2)];
     index := 5;
     ab := Some (0%nat, 1%nat) |}.

(** The state after the first merge on [centroid_points] with the centroid
    method: the points 2 and 3 (slots 1 and 3) were merged at distance 1. *)
Definition after_centroid_merge : state :=
  {| clusters := [(0, [0]); (2, [2]); (4, [1; 3])];
     dist_vector := [2; 6; 3; 4; 3; 2.5; 3.5]%float;
     linkage_matrix := [(1, 3, 1%float, 2)];
     index := 5;
     ab := Some (1%nat, 3%nat) |}.

(** ** Leaf order for the dendrogram *)

(** The exceptions [int(x)] and the unpacking of a row can raise. *)
Inductive leaf_error : Type :=
| ValueError
| OverflowError.

Inductive outcome (A : Type) : Type :=
| Done (a : A)
| Fail (e : leaf_error).

Arguments Done {A} a.
Arguments Fail {A} e.

Definition and_then {A B : Type} (r : outcome A) (k : A -> outcome B)
    : outcome B :=
  match r with
  | Done a => k a
  | Fail e => Fail e
  end.

Notation "x <~ r ;; k" := (and_then r (fun x => k))
  (at level 61, r at next level, right associativity).

(** [int(x)] for a float: the value truncated toward zero; not-a-number
    raises ValueError and an infinity raises OverflowError. *)
Definition int_of_float (x : float64) : outcome Z :=
  match Prim2SF x with
  | S754_nan => Fail ValueError
  | S754_infinity _ => Fail OverflowError
  | S754_zero _ => Done 0
  | S754_finite s m e =>
      let v := Z.shiftl (Zpos m) e in Done (if s then - v else v)
  end.

(** The dictionary [clusters] of [get_leaves]: integer keys with their
    lists, in insertion order. *)
Definition leaf_dict : Type := list (Z * list Z).

(** [clusters.pop(key, default)]: the value found (or the default) and the
    dictionary without the key. *)
Fixpoint dict_pop (d : leaf_dict) (key : Z) (default : list Z)
    : list Z * leaf_dict :=
  match d with
  | [] => (default, [])
  | (k, v) :: rest =>
      if k =? key then (v, rest)
      else let popped := dict_pop rest key default in
           (fst popped, (k, v) :: snd popped)
  end.

(** [clusters[key] = value]: an existing key keeps its place, a new key
    goes last. *)
Fixpoint dict_set (d : leaf_dict) (key : Z) (value : list Z) : leaf_dict :=
  match d with
  | [] => [(key, value)]
  | (k, v) :: rest =>
      if k =? key then (k, value) :: rest
      else (k, v) :: dict_set rest key value
  end.

(** The loop [for i, (a, b, dist, size) in enumerate(linkage_matrix)] of
    [get_leaves], from row number [i] on.  A row that does not have exactly
    four entries cannot be unpacked. *)
Fixpoint replay_merges (num_leaves : Z) (i : nat)
    (linkage_matrix : list (list float64)) (clusters : leaf_dict)
    : outcome leaf_dict :=
  match linkage_matrix with
  | [] => Done clusters
  | row :: rest =>
      match row with
      | [a; b; dist; size] =>
          key_a <~ int_of_float a ;;
          let popped_a := dict_pop clusters key_a [key_a] in
          let cluster_a := fst popped_a in
          key_b <~ int_of_float b ;;
          let popped_b := dict_pop (snd popped_a) key_b [key_b] in
          let cluster_b := fst popped_b in
          let new_cluster := cluster_a ++ cluster_b in
          replay_merges num_leaves (S i) rest
            (dict_set (snd popped_b) (num_leaves + Z.of_nat i) new_cluster)
      | _ => Fail ValueError
      end
  end.

(** [{i: [i] for i in range(num_leaves)}] *)
Definition leaves_dict (num_leaves : Z) : leaf_dict :=
  map (fun i => (Z.of_nat i, [Z.of_nat i])) (Py.range (Z.to_nat num_leaves)).

(** [get_leaves(linkage_matrix, num_leaves)], nested in [plot_dendrogram]. *)
Definition get_leaves (linkage_matrix : list (list float64)) (num_leaves : Z)
    : outcome (list (list Z)) :=
  clusters <~ replay_merges num_leaves 0 linkage_matrix (leaves_dict num_leaves) ;;
  let final_order := map snd clusters in
  Done final_order.

(** The first two statements of [plot_dendrogram] after its nested
    definitions: [num_leaves = len(linkage_matrix) + 1] and
    [leaves_order = get_leaves(linkage_matrix, num_leaves)]. *)
Definition leaves_order (linkage_matrix : list (list float64))
    : outcome (list (list Z)) :=
  let num_leaves := Py.len linkage_matrix + 1 in
  get_leaves linkage_matrix num_leaves.

(** The Python list [linkage_matrix] as the loop leaves it, before line 107
    turns it into an array and line 108 sorts its rows. *)
Definition recorded_merges (data : list (list float64)) (method : string)
    (num_clusters : Z) : option (list merge_event) :=
  match while_loop (S (length data)) (Py.len data) method num_clusters
                   (initial_state data) with
  | Some (Ok st) => Some (linkage_matrix st)
  | _ => None
  end.

(** The three one-dimensional points 0, 1, 3. *)
Definition three_points : list (list float64) :=
  [[0%float]; [1%float]; [3%float]].

(** A row of a linkage matrix that [get_leaves] can unpack and whose two
    identifiers are numbers. *)
Definition readable_row (row : list float64) : Prop :=
  exists a b dist size,
    row = [a; b; dist; size]
    /\ PrimFloat.is_finite a = true /\ PrimFloat.is_finite b = true.

(** The identifiers a recorded merge joins. *)
Definition left_id (e : merge_event) : Z := fst (fst (fst e)).
Definition right_id (e : merge_event) : Z := snd (fst (fst e)).
Definition event_distance (e : merge_event) : float64 := snd (fst e).
Definition event_size (e : merge_event) : Z := snd e.

Definition children (e : merge_event) : list Z := [left_id e; right_id e].

(** Merges whose distances strictly increase from each one to the next. *)
Definition strictly_increasing (events : list merge_event) : Prop :=
  Sorted (fun e1 e2 => (event_distance e1 <? event_distance e2)%float = true)
         events.

(** A record of merges over [n] leaves in which the merge number [i] joins
    two different identifiers below [n + i], and no identifier is joined
    twice. *)
Definition valid_linkage (n : Z) (events : list merge_event) : Prop :=
  (forall i e, nth_error events i = Some e ->
     0 <= left_id e < n + Z.of_nat i /\ 0 <= right_id e < n + Z.of_nat i)
  /\ NoDup (flat_map children events).

(** ** Notions the properties are stated with *)

(** The five linkage methods of the specification. *)
Inductive linkage : Type := Single | Complete | Average | Centroid | Ward.

Definition linkage_of (method : string) : option linkage :=
  if (method =? "single")%string then Some Single
  else if (method =? "complete")%string then Some Complete
  else if (method =? "average")%string then Some Average
  else if (method =? "centroid")%string then Some Centroid
  else if (method =? "ward")%string then Some Ward
  else None.

(** The quantity under the square root of the centroid formula:
    (|a| d(a,i)^2 + |b| d(b,i)^2) / (|a|+|b|) - |a| |b| d(a,b)^2 / (|a|+|b|)^2. *)
Definition centroid_radicand (sa sb : Z) (da db dab : float64) : float64 :=
  ((of_int sa * sq da + of_int sb * sq db) / of_int (sa + sb)
   - (of_int (sa * sb) * sq dab) / of_int ((sa + sb) ^ 2))%float.

(** The quantity under the square root of the ward formula:
    ((|a|+|i|) d(a,i)^2 + (|b|+|i|) d(b,i)^2 - |i| d(a,b)^2) / (|a|+|b|+|i|). *)
Definition ward_radicand (sa sb si : Z) (da db dab : float64) : float64 :=
  ((of_int (sa + si) * sq da + of_int (sb + si) * sq db - of_int si * sq dab)
   / of_int (sa + sb + si))%float.

(** The value the [if]/[elif] chain of [update_distance_matrix] binds to
    [new_dist] for the method [m], once the distances are read. *)
Definition new_dist_value (m : linkage) (sa sb si : Z) (da db dab : float64)
    : float64 :=
  match m with
  | Single => py_min da db
  | Complete => py_max da db
  | Average => ((of_int sa * da + of_int sb * db) / of_int (sa + sb))%float
  | Centroid => PrimFloat.sqrt (centroid_radicand sa sb da db dab)
  | Ward => PrimFloat.sqrt (ward_radicand sa sb si da db dab)
  end.

(** The minimum and the maximum of two numbers by the order [<=]: the
    minimum is below both and the maximum above both (the first number is
    taken when the two compare equal). *)
Definition float_min (x y : float64) : float64 :=
  if (x <=? y)%float then x else y.
Definition float_max (x y : float64) : float64 :=
  if (y <=? x)%float then x else y.

(** The Lance-Williams formulas as the specification lists them, from the
    sizes |a|, |b|, |i| and the distances d(a,i), d(b,i), d(a,b). *)
Definition lance_williams (m : linkage) (sa sb si : Z) (da db dab : float64)
    : float64 :=
  match m with
  | Single => float_min da db
  | Complete => float_max da db
  | Average => ((of_int sa * da + of_int sb * db) / of_int (sa + sb))%float
  | Centroid => PrimFloat.sqrt (centroid_radicand sa sb da db dab)
  | Ward => PrimFloat.sqrt (ward_radicand sa sb si da db dab)
  end.

(** The entry a condensed array of [n] slots holds for the slots [x], [y]. *)
Definition entry (dist_vector : list float64) (n : nat) (x y : nat) : float64 :=
  nth (Z.to_nat (_condensed_index (Z.of_nat n) (Z.of_nat x) (Z.of_nat y)))
      dist_vector nan.

(** The size of the cluster in slot [i]. *)
Definition size_at (clusters : list cluster) (i : nat) : Z :=
  Py.len (snd (nth i clusters (0, []))).

(** The slots of [n] clusters other than [a] and [b], in increasing order. *)
Definition remaining_slots (a b n : nat) : list nat :=
  filter (fun i => negb (Nat.eqb i a) && negb (Nat.eqb i b)) (seq 0 n).

(** A list with the entries at positions [a < b] taken out. *)
Definition remove_two {A : Type} (a b : nat) (l : list A) : list A :=
  firstn a l ++ firstn (b - a - 1) (skipn (S a) l) ++ skipn (S b) l.

(** The number of entries of a condensed matrix of [m] rows. *)
Definition condensed_length (m : nat) : nat := m * (m - 1) / 2.

(** The variables [a] and [b], when bound, hold a pair [a < b]. *)
Definition ab_ordered (st : state) : Prop :=
  match ab st with
  | Some (a, b) => (a < b)%nat
  | None => True
  end.

(** The states the loop of [hierarchical_clustering(data, method, _)] can be
    in at the start of an iteration. *)
Inductive reachable (data : list (list float64)) (method : string)
    : state -> Prop :=
| reach_initial : reachable data method (initial_state data)
| reach_merge st st' :
    reachable data method st ->
    loop_body (Py.len data) method st = Ok st' ->
    reachable data method st'.

(** A distance that compares below infinity: a number, not infinite. *)
Definition below_infinity (d : float64) : Prop := (d <? infinity)%float = true.

(** Rows in ascending order of their distance. *)
Definition ascending (rows : list (list float64)) : Prop :=
  Sorted (fun r1 r2 => (distance_of r1 <=? distance_of r2)%float = true) rows.

(** * Properties *)

(** ** Binary64 comparisons and square roots *)

Section FloatFacts.

Lemma SFcompare_antisym x y :
  SFcompare y x = option_map CompOpp (SFcompare x y).
Proof.
  destruct x as [sx|sx| |sx mx ex], y as [sy|sy| |sy my ey]; simpl;
    try reflexivity; try (destruct sx; reflexivity); try (destruct sy; reflexivity);
    try (destruct sx, sy; reflexivity).
  destruct sx, sy; simpl; try reflexivity;
    rewrite (Z.compare_antisym ex ey);
    destruct (ex ?= ey) eqn:He; simpl; try reflexivity;
    pose proof (Pos.compare_cont_antisym mx my Eq) as Hm; simpl in Hm;
    rewrite <- Hm; destruct (Pos.compare_cont Eq mx my); reflexivity.
Qed.

Lemma SFcompare_refl x : x <> S754_nan -> SFcompare x x = Some Eq.
Proof.
  destruct x as [s|s| |s m e]; simpl; intros H; try congruence.
  - destruct s; reflexivity.
  - rewrite Z.compare_refl, Pos.compare_cont_refl. destruct s; reflexivity.
Qed.

Lemma SFcompare_None x y :
  SFcompare x y = None -> x = S754_nan \/ y = S754_nan.
Proof.
  destruct x as [sx|sx| |sx mx ex], y as [sy|sy| |sy my ey]; simpl;
    intros H; try discriminate; auto.
Qed.

Lemma is_nan_spec x : is_nan x = true <-> Prim2SF x = S754_nan.
Proof.
  unfold is_nan, PrimFloat.is_nan. rewrite eqb_spec. unfold SFeqb.
  split.
  - intros H. destruct (Prim2SF x) eqn:E; try reflexivity;
      rewrite SFcompare_refl in H by discriminate; discriminate.
  - intros ->. reflexivity.
Qed.

Lemma is_nan_false x : is_nan x = false <-> Prim2SF x <> S754_nan.
Proof.
  rewrite <- is_nan_spec. destruct (is_nan x); split; congruence.
Qed.

Lemma ltb_not_nan x y :
  (x <? y)%float = true -> is_nan x = false /\ is_nan y = false.
Proof.
  rewrite ltb_spec. unfold SFltb. rewrite !is_nan_false.
  intros H; split; intros E; rewrite E in H; simpl in H;
    try discriminate.
  destruct (Prim2SF x); discriminate.
Qed.

Lemma ltb_false_leb x y :
  is_nan x = false -> is_nan y = false ->
  (x <? y)%float = false -> (y <=? x)%float = true.
Proof.
  rewrite ltb_spec, leb_spec, !is_nan_false. unfold SFltb, SFleb.
  intros Hx Hy. rewrite (SFcompare_antisym (Prim2SF x) (Prim2SF y)).
  destruct (SFcompare (Prim2SF x) (Prim2SF y)) as [[]|] eqn:E; simpl; try congruence.
  apply SFcompare_None in E. tauto.
Qed.

Lemma shr_1_nonneg mrs : 0 <= shr_m mrs -> 0 <= shr_m (shr_1 mrs).
Proof.
  destruct mrs as [m r s]. simpl. destruct m as [|p|p]; simpl; try lia.
  - destruct p; simpl; lia.
Qed.

Lemma iter_pos_shr_1_nonneg p mrs :
  0 <= shr_m mrs -> 0 <= shr_m (iter_pos shr_1 p mrs).
Proof.
  revert mrs. induction p as [p IH|p IH|]; simpl; intros mrs H.
  - apply IH, IH, shr_1_nonneg, H.
  - apply IH, IH, H.
  - apply shr_1_nonneg, H.
Qed.

Lemma shr_fexp_nonneg m e l :
  0 <= m -> 0 <= shr_m (fst (shr_fexp prec emax m e l)).
Proof.
  intros H. unfold shr_fexp, shr.
  assert (H0 : 0 <= shr_m (shr_record_of_loc m l)).
  { destruct l as [|[]]; simpl; exact H. }
  destruct (fexp prec emax (Zdigits2 m + e) - e); simpl; auto.
  apply iter_pos_shr_1_nonneg. exact H0.
Qed.

Lemma binary_round_aux_not_nan s m e l :
  0 <= m -> binary_round_aux prec emax s m e l <> S754_nan.
Proof.
  intros H. unfold binary_round_aux.
  pose proof (shr_fexp_nonneg m e l H) as H1.
  destruct (shr_fexp prec emax m e l) as [mrs' e'] eqn:E1. simpl in H1.
  assert (H2 : 0 <= round_nearest_even (shr_m mrs') (loc_of_shr_record mrs')).
  { unfold round_nearest_even. destruct (loc_of_shr_record mrs') as [|[]];
      try lia. destruct (Z.even (shr_m mrs')); lia. }
  pose proof (shr_fexp_nonneg _ e' loc_Exact H2) as H3.
  destruct (shr_fexp prec emax _ e' loc_Exact) as [mrs'' e''] eqn:E2. simpl in H3.
  destruct (shr_m mrs'') as [|p|p]; try discriminate; try lia.
  destruct (e'' <=? emax - prec); discriminate.
Qed.

Lemma SFsqrt_nan x :
  SF64sqrt x = S754_nan <-> x = S754_nan \/ SFltb x (S754_zero false) = true.
Proof.
  unfold SF64sqrt, SFsqrt.
  destruct x as [s|s| |s m e]; simpl.
  - split; [discriminate | intros [H|H]; discriminate].
  - destruct s; simpl; split; auto; try discriminate. intros [H|H]; discriminate.
  - tauto.
  - destruct s; simpl; [tauto |].
    split; [| intros [H|H]; discriminate].
    intros H. exfalso. revert H.
    destruct (SFsqrt_core_binary prec emax (Z.pos m) e) as [[mz ez] lz] eqn:E.
    apply binary_round_aux_not_nan.
    unfold SFsqrt_core_binary in E.
    match type of E with context [Z.sqrtrem ?n] =>
      pose proof (Z.sqrtrem_spec n) as Hs; destruct (Z.sqrtrem n) as [q r] end.
    assert (Hq : 0 <= q).
    { assert (0 <= r <= 2 * q); [| lia]. apply Hs.
      destruct (e - 2 * Z.min (fexp prec emax (Z.div2 (Zdigits2 (Z.pos m) + e + 1)))
                              (Z.div2 e)); try lia.
      apply Z.shiftl_nonneg. lia. }
    inversion E; subst. exact Hq.
Qed.

Lemma sqrt_nan_iff x :
  is_nan (PrimFloat.sqrt x) = is_nan x || (x <? 0)%float.
Proof.
  apply eq_true_iff_eq. rewrite orb_true_iff, !is_nan_spec, sqrt_spec, ltb_spec.
  apply SFsqrt_nan.
Qed.

Lemma leb_refl x : is_nan x = false -> (x <=? x)%float = true.
Proof.
  rewrite leb_spec, is_nan_false. unfold SFleb. intros H.
  now rewrite SFcompare_refl.
Qed.

Lemma ltb_leb x y : (x <? y)%float = true -> (x <=? y)%float = true.
Proof.
  rewrite ltb_spec, leb_spec. unfold SFltb, SFleb.
  destruct (SFcompare (Prim2SF x) (Prim2SF y)) as [[]|]; congruence.
Qed.

(** On numbers, Python's [min] and [max] are the least and the greatest of
    their two arguments. *)
Lemma py_min_least x y :
  is_nan x = false -> is_nan y = false ->
  (py_min x y <=? x)%float = true /\ (py_min x y <=? y)%float = true
  /\ (py_min x y = x \/ py_min x y = y).
Proof.
  intros Hx Hy. unfold py_min. destruct (y <? x)%float eqn:E.
  - repeat split; [now apply ltb_leb | now apply leb_refl | now right].
  - repeat split; [now apply leb_refl | now apply ltb_false_leb | now left].
Qed.

Lemma py_max_greatest x y :
  is_nan x = false -> is_nan y = false ->
  (x <=? py_max x y)%float = true /\ (y <=? py_max x y)%float = true
  /\ (py_max x y = x \/ py_max x y = y).
Proof.
  intros Hx Hy. unfold py_max. destruct (x <? y)%float eqn:E.
  - repeat split; [now apply ltb_leb | now apply leb_refl | now right].
  - repeat split; [now apply leb_refl | now apply ltb_false_leb | now left].
Qed.

Lemma ltb_leb_false x y :
  (x <? y)%float = true -> (y <=? x)%float = false.
Proof.
  rewrite ltb_spec, leb_spec. unfold SFltb, SFleb.
  rewrite (SFcompare_antisym (Prim2SF x) (Prim2SF y)).
  destruct (SFcompare (Prim2SF x) (Prim2SF y)) as [[]|]; simpl; congruence.
Qed.

(** On numbers, Python's [min] and [max] are the minimum and the maximum
    by the order [<=]. *)
Lemma py_min_float_min x y :
  is_nan x = false -> is_nan y = false -> py_min x y = float_min x y.
Proof.
  intros Hx Hy. unfold py_min, float_min. destruct (y <? x)%float eqn:E.
  - now rewrite (ltb_leb_false _ _ E).
  - now rewrite (ltb_false_leb _ _ Hy Hx E).
Qed.

Lemma py_max_float_max x y :
  is_nan x = false -> is_nan y = false -> py_max x y = float_max x y.
Proof.
  intros Hx Hy. unfold py_max, float_max. destruct (x <? y)%float eqn:E.
  - now rewrite (ltb_leb_false _ _ E).
  - now rewrite (ltb_false_leb _ _ Hx Hy E).
Qed.

(** On numbers, [float_min] is below both arguments and is one of them;
    [float_max] is above both and is one of them. *)
Lemma float_min_least x y :
  is_nan x = false -> is_nan y = false ->
  (float_min x y <=? x)%float = true /\ (float_min x y <=? y)%float = true
  /\ (float_min x y = x \/ float_min x y = y).
Proof.
  intros Hx Hy. rewrite <- py_min_float_min by assumption.
  now apply py_min_least.
Qed.

Lemma float_max_greatest x y :
  is_nan x = false -> is_nan y = false ->
  (x <=? float_max x y)%float = true /\ (y <=? float_max x y)%float = true
  /\ (float_max x y = x \/ float_max x y = y).
Proof.
  intros Hx Hy. rewrite <- py_max_float_max by assumption.
  now apply py_max_greatest.
Qed.

Lemma infinity_not_nan : is_nan infinity = false.
Proof. reflexivity. Qed.

End FloatFacts.

(** ** The condensed index *)

(** C8: the condensed index is symmetric, agrees with the upper-triangle
    packing n*i - i*(i+1)/2 + (j-i-1) for i < j, and is 0 on the diagonal. *)
Theorem condensed_index_contract (n i j : Z) :
  0 <= i < n -> 0 <= j < n ->
  _condensed_index n i j = _condensed_index n j i
  /\ (i < j -> _condensed_index n i j = n * i - i * (i + 1) / 2 + (j - i - 1))
  /\ (i = j -> _condensed_index n i j = 0).
Proof.
  intros _ _. unfold _condensed_index. repeat split.
  - destruct (i <? j) eqn:Hij, (j <? i) eqn:Hji, (i >? j) eqn:Hgij,
      (j >? i) eqn:Hgji; try reflexivity; lia.
  - intros Hlt. apply Z.ltb_lt in Hlt. now rewrite Hlt.
  - intros ->. rewrite Z.ltb_irrefl.
    destruct (j >? j) eqn:H; [lia | reflexivity].
Qed.

Lemma condensed_index_contract_witness :
  (0 <= 1 < 4) /\ (0 <= 3 < 4)
  /\ _condensed_index 4 1 3 = _condensed_index 4 3 1
  /\ (1 < 3 -> _condensed_index 4 1 3 = 4 * 1 - 1 * (1 + 1) / 2 + (3 - 1 - 1))
  /\ (1 = 3 -> _condensed_index 4 1 3 = 0).
Proof.
  split; [lia | split; [lia |]].
  apply (condensed_index_contract 4 1 3); lia.
Defined.

(** ** The four-point scenario *)

(** C1: on the points 0, 1, 5, 6 with single linkage and one final cluster
    the function returns the rows (0,1) at distance 1, (2,3) at distance 4
    and (4,5) at distance 4: the pair of points 5 and 6 (rows 2 and 3) is
    recorded at distance 4 instead of 1.  The final cluster holds all four
    points. *)
Theorem four_points_single :
  hierarchical_clustering four_points "single" 1 =
  Some (Ok ([[0; 1; 1; 2]; [2; 3; 4; 2]; [4; 5; 4; 4]]%float,
            [(6, [0; 1; 2; 3])])).
Proof. vm_compute. reflexivity. Qed.

(** C2: after the first merge on the points 0, 1, 5, 6 three clusters are
    active, yet the distance array has 7 entries instead of the 3 entries of
    a condensed matrix of three rows, and the entry the next pair scan reads
    for slots 0 and 1 (the points 5 and 6, whose distance is 1) is 4. *)
Theorem four_points_first_merge :
  loop_body 4 "single" (initial_state four_points) = Ok after_first_merge
  /\ length (clusters after_first_merge) = 3%nat
  /\ condensed_length 3 = 3%nat
  /\ length (dist_vector after_first_merge) = 7%nat
  /\ firstn 2 (clusters after_first_merge) = [(2, [2]); (3, [3])]
  /\ pair_distance 4 (dist_vector after_first_merge)
                   (clusters after_first_merge) 0 1 = Ok 4%float
  /\ euclidean [5%float] [6%float] = 1%float.
Proof. repeat split; vm_compute; reflexivity. Qed.

(** ** Results and Python sequences *)

Lemma bind_Ok {A B : Type} (r : result A) (k : A -> result B) (y : B) :
  bind r k = Ok y -> exists x, r = Ok x /\ k x = Ok y.
Proof. destruct r as [x|e]; simpl; [eauto | discriminate]. Qed.

Lemma item_Ok {A : Type} (l : list A) (i : nat) (x : A) :
  Py.item l i = Ok x <-> nth_error l i = Some x.
Proof.
  unfold Py.item. destruct (nth_error l i); split; congruence.
Qed.

Lemma item_nth {A : Type} (l : list A) (i : nat) (d : A) :
  (i < length l)%nat -> Py.item l i = Ok (nth i l d).
Proof.
  intros H. apply item_Ok. now apply nth_error_nth'.
Qed.

Lemma item_lt {A : Type} (l : list A) (i : nat) (x : A) :
  Py.item l i = Ok x -> (i < length l)%nat.
Proof.
  rewrite item_Ok. intros H. apply nth_error_Some. congruence.
Qed.

Lemma get_nth {A : Type} (l : list A) (k : Z) (d : A) :
  0 <= k < Py.len l -> Py.get l k = Ok (nth (Z.to_nat k) l d).
Proof.
  unfold Py.get, Py.len. intros [H0 H1].
  destruct (k <? 0) eqn:E; [lia |]. rewrite E.
  rewrite (nth_error_nth' l d); [reflexivity | lia].
Qed.

Tactic Notation "inv_bind" hyp(H) "as" ident(x) ident(Hx) :=
  apply bind_Ok in H; destruct H as (x & Hx & H).

(** ** Runs that merge nothing *)

Lemma initial_clusters_length data :
  length (clusters (initial_state data)) = length data.
Proof.
  unfold initial_state, Py.range; simpl.
  now rewrite length_map, length_seq.
Qed.

Lemma while_loop_exit fuel n method num_clusters st :
  Py.len (clusters st) <= num_clusters ->
  while_loop fuel n method num_clusters st = Some (Ok st).
Proof.
  intros H. destruct fuel; simpl;
    destruct (Py.len (clusters st) >? num_clusters) eqn:E;
    try reflexivity; lia.
Qed.

Lemma zero_iterations_raise data method num_clusters :
  Py.len data <= num_clusters ->
  hierarchical_clustering data method num_clusters = Some (Raise IndexError).
Proof.
  intros H. unfold hierarchical_clustering.
  rewrite while_loop_exit; [reflexivity |].
  unfold Py.len in *. now rewrite initial_clusters_length.
Qed.

(** C3: when the requested number of clusters is at least the number of
    points (in particular when there are no points) the loop makes no
    iteration and leaves the singleton clusters as they are, and the
    function then raises IndexError instead of returning an empty record. *)
Theorem no_merge_raises data method num_clusters :
  Py.len data <= num_clusters ->
  (forall fuel,
     while_loop fuel (Py.len data) method num_clusters (initial_state data)
     = Some (Ok (initial_state data)))
  /\ hierarchical_clustering data method num_clusters = Some (Raise IndexError).
Proof.
  intros H. split.
  - intros fuel. apply while_loop_exit.
    unfold Py.len in *. now rewrite initial_clusters_length.
  - now apply zero_iterations_raise.
Qed.

Lemma no_merge_raises_witness :
  (forall fuel,
     while_loop fuel (Py.len four_points) "single" 4 (initial_state four_points)
     = Some (Ok (initial_state four_points)))
  /\ hierarchical_clustering four_points "single" 4 = Some (Raise IndexError).
Proof.
  apply (no_merge_raises four_points "single" 4). vm_compute. discriminate.
Defined.

(** ** Removing two slots *)

Lemma without_slots_past a b s (l : list cluster) :
  (a < s)%nat -> (b < s)%nat -> without_slots a b s l = l.
Proof.
  revert s. induction l as [|c l IH]; simpl; intros s Ha Hb; [reflexivity |].
  destruct (Nat.eqb_spec s a); [lia |].
  destruct (Nat.eqb_spec s b); [lia |]. simpl.
  rewrite IH by lia. reflexivity.
Qed.

Lemma without_slots_one a b s (l : list cluster) :
  (a < s)%nat -> (s <= b)%nat ->
  without_slots a b s l = firstn (b - s) l ++ skipn (S (b - s)) l.
Proof.
  revert s. induction l as [|c l IH]; simpl; intros s Ha Hb.
  - now rewrite firstn_nil.
  - destruct (Nat.eqb_spec s a); [lia |].
    destruct (Nat.eqb_spec s b) as [->|Hne]; simpl.
    + rewrite Nat.sub_diag. simpl. apply without_slots_past; lia.
    + rewrite IH by lia.
      replace (b - s)%nat with (S (b - S s)) by lia. reflexivity.
Qed.

Lemma without_slots_two a b s (l : list cluster) :
  (s <= a)%nat -> (a < b)%nat ->
  without_slots a b s l =
  firstn (a - s) l ++ firstn (b - a - 1) (skipn (S (a - s)) l)
  ++ skipn (S (b - s)) l.
Proof.
  revert s. induction l as [|c l IH]; simpl; intros s Ha Hb.
  - now rewrite !firstn_nil.
  - destruct (Nat.eqb_spec s a) as [->|Hne]; simpl.
    + rewrite Nat.sub_diag. simpl.
      rewrite without_slots_one by lia.
      replace (b - a - 1)%nat with (b - S a)%nat by lia.
      replace (b - a)%nat with (S (b - S a)) by lia.
      reflexivity.
    + destruct (Nat.eqb_spec s b); [lia |]. simpl.
      rewrite IH by lia.
      replace (a - s)%nat with (S (a - S s)) by lia.
      replace (b - s)%nat with (S (b - S s)) by lia. reflexivity.
Qed.

Lemma without_slots_remove_two a b (l : list cluster) :
  (a < b)%nat -> without_slots a b 0 l = remove_two a b l.
Proof.
  intros H. rewrite without_slots_two by lia.
  unfold remove_two. now rewrite !Nat.sub_0_r.
Qed.

Lemma without_slots_filter a b s (l : list cluster) (d : cluster) :
  without_slots a b s l =
  map (fun i => nth (i - s) l d)
      (filter (fun i => negb (Nat.eqb i a) && negb (Nat.eqb i b))
              (seq s (length l))).
Proof.
  revert s. induction l as [|c l IH]; intros s; [reflexivity |].
  assert (Htail :
    map (fun i => nth (i - s) (c :: l) d)
        (filter (fun i => negb (Nat.eqb i a) && negb (Nat.eqb i b))
                (seq (S s) (length l)))
    = without_slots a b (S s) l).
  { rewrite IH. apply map_ext_in. intros i Hi.
    apply filter_In in Hi. destruct Hi as [Hi _]. apply in_seq in Hi.
    replace (i - s)%nat with (S (i - S s)) by lia. reflexivity. }
  cbn [without_slots length seq filter].
  destruct (Nat.eqb s a), (Nat.eqb s b); cbn [negb andb orb map];
    rewrite ?Htail, ?Nat.sub_diag; reflexivity.
Qed.

Lemma without_slots_remaining a b (l : list cluster) :
  without_slots a b 0 l =
  map (fun i => nth i l (0, [])) (remaining_slots a b (length l)).
Proof.
  rewrite (without_slots_filter a b 0 l (0, [])). unfold remaining_slots.
  apply map_ext. intros i. now rewrite Nat.sub_0_r.
Qed.

Lemma skipn_nth_error {A : Type} (a : nat) (l : list A) (x : A) :
  nth_error l a = Some x -> skipn a l = x :: skipn (S a) l.
Proof.
  revert l. induction a as [|a IH]; intros [|z l] Hx; simpl in *;
    try discriminate.
  - congruence.
  - now apply IH.
Qed.

Lemma split_two {A : Type} (a b : nat) (l : list A) (x y : A) :
  (a < b)%nat -> nth_error l a = Some x -> nth_error l b = Some y ->
  l = firstn a l ++ x :: firstn (b - a - 1) (skipn (S a) l)
      ++ y :: skipn (S b) l.
Proof.
  intros Hab Hx Hy.
  rewrite <- (firstn_skipn a l) at 1. f_equal.
  rewrite (skipn_nth_error a l x Hx). f_equal.
  rewrite <- (firstn_skipn (b - a - 1) (skipn (S a) l)) at 1. f_equal.
  rewrite skipn_skipn.
  replace (b - a - 1 + S a)%nat with b by lia.
  now apply skipn_nth_error.
Qed.

Lemma remove_two_length {A : Type} (a b : nat) (l : list A) :
  (a < b)%nat -> (b < length l)%nat ->
  S (S (length (remove_two a b l))) = length l.
Proof.
  intros Hab Hb.
  destruct (nth_error l a) as [x|] eqn:Hx;
    [| apply nth_error_None in Hx; lia].
  destruct (nth_error l b) as [y|] eqn:Hy;
    [| apply nth_error_None in Hy; lia].
  rewrite (split_two a b l x y Hab Hx Hy) at 2.
  unfold remove_two. rewrite !length_app. simpl. rewrite !length_app. simpl.
  lia.
Qed.

Lemma remove_two_members (a b : nat) (l : list cluster) (x y : cluster) :
  (a < b)%nat -> nth_error l a = Some x -> nth_error l b = Some y ->
  Permutation (concat (map snd (remove_two a b l ++ [(0, snd x ++ snd y)])))
              (concat (map snd l)).
Proof.
  intros Hab Hx Hy.
  rewrite (split_two a b l x y Hab Hx Hy) at 2.
  unfold remove_two.
  set (l1 := firstn a l). set (l2 := firstn (b - a - 1) (skipn (S a) l)).
  set (l3 := skipn (S b) l).
  repeat (rewrite ?map_app, ?concat_app; simpl).
  rewrite app_nil_r.
  rewrite <- !app_assoc.
  apply Permutation_app_head.
  apply Permutation_sym.
  etransitivity; [apply Permutation_app_comm |].
  rewrite <- !app_assoc. apply Permutation_app_head.
  etransitivity; [apply Permutation_app_comm |].
  rewrite <- !app_assoc. reflexivity.
Qed.

Lemma merge_clusters_Ok clusters a b index clusters' :
  merge_clusters clusters a b index = Ok clusters' ->
  exists ca cb,
    nth_error clusters a = Some ca /\ nth_error clusters b = Some cb
    /\ clusters' = without_slots a b 0 clusters ++ [(index, snd ca ++ snd cb)].
Proof.
  unfold merge_clusters. intros H.
  inv_bind H as ca Ha. inv_bind H as cb Hb. apply item_Ok in Ha, Hb.
  exists ca, cb. repeat split; try assumption. congruence.
Qed.

(** ** Pair selection *)

Lemma scan_order_spec m i j : In (i, j) (scan_order m) -> (i < j < m)%nat.
Proof.
  unfold scan_order, Py.range, Py.range2. intros H.
  apply in_flat_map in H. destruct H as (i' & Hi' & H).
  apply in_map_iff in H. destruct H as (j' & Heq & Hj').
  inversion Heq; subst. apply in_seq in Hi', Hj'. lia.
Qed.

Lemma scan_pairs_inv n dv cl pairs :
  forall min_dist ab min_dist' ab',
  scan_pairs n dv cl pairs min_dist ab = Ok (min_dist', ab') ->
  (is_nan min_dist = false -> is_nan min_dist' = false)
  /\ (ab' = ab \/ exists p, In p pairs /\ ab' = Some p).
Proof.
  induction pairs as [|[i j] rest IH]; simpl; intros md ab md' ab' H.
  - inversion H; subst. auto.
  - inv_bind H as x Hx. destruct (x <? md)%float eqn:E.
    + apply IH in H. destruct H as [Hnan Hab]. split.
      * intros _. apply Hnan. now apply ltb_not_nan in E.
      * destruct Hab as [-> | (p & Hp & ->)]; right; eauto.
    + apply IH in H. destruct H as [Hnan Hab]. split; [exact Hnan |].
      destruct Hab as [-> | (p & Hp & ->)]; [now left | right; eauto].
Qed.

Lemma select_pair_inv n st min_dist a b :
  select_pair n st = Ok (min_dist, Some (a, b)) ->
  ab_ordered st ->
  is_nan min_dist = false /\ (a < b)%nat.
Proof.
  unfold select_pair, ab_ordered. intros H Hord.
  apply scan_pairs_inv in H. destruct H as [Hnan Hab]. split.
  - apply Hnan. apply infinity_not_nan.
  - destruct Hab as [Heq | ([i j] & Hin & Heq)].
    + rewrite <- Heq in Hord. exact Hord.
    + inversion Heq; subst. apply scan_order_spec in Hin. lia.
Qed.

(** ** One iteration *)

Lemma loop_body_Ok n method st st' :
  loop_body n method st = Ok st' ->
  exists min_dist a b ca cb new_distances,
    select_pair n st = Ok (min_dist, Some (a, b))
    /\ nth_error (clusters st) a = Some ca
    /\ nth_error (clusters st) b = Some cb
    /\ update_distance_matrix (dist_vector st) a b (clusters st) method
       = Ok new_distances
    /\ st' =
       {| clusters := without_slots a b 0 (clusters st)
                      ++ [(index st, snd ca ++ snd cb)];
          dist_vector :=
            Py.slice_to (dist_vector st)
              (_condensed_index n (Z.of_nat a) (Z.of_nat b))
            ++ Py.slice_from (dist_vector st)
                 (_condensed_index n (Z.of_nat a) (Z.of_nat b) + 1)
            ++ new_distances;
          linkage_matrix :=
            linkage_matrix st
            ++ [(fst ca, fst cb, min_dist, Py.len (snd ca) + Py.len (snd cb))];
          index := index st + 1;
          ab := Some (a, b) |}.
Proof.
  unfold loop_body. intros H.
  inv_bind H as sel Hsel. destruct sel as [min_dist o].
  inv_bind H as p Hp. destruct o as [[a b]|]; simpl in Hp; [| discriminate].
  inversion Hp; subst p; clear Hp. simpl in H.
  inv_bind H as ca Ha. inv_bind H as cb Hb.
  inv_bind H as new_distances Hupd. inv_bind H as clusters' Hmerge.
  apply item_Ok in Ha, Hb.
  apply merge_clusters_Ok in Hmerge.
  destruct Hmerge as (ca' & cb' & Ha' & Hb' & ->).
  assert (ca' = ca) by congruence. assert (cb' = cb) by congruence. subst.
  exists min_dist, a, b, ca, cb, new_distances.
  repeat split; try assumption. now inversion H.
Qed.

(** ** Invariants of the loop *)

Lemma reachable_ab_ordered data method st :
  reachable data method st -> ab_ordered st.
Proof.
  induction 1 as [|st st' Hr IH Hstep].
  - exact I.
  - apply loop_body_Ok in Hstep.
    destruct Hstep as (md & a & b & ca & cb & nd & Hsel & _ & _ & _ & ->).
    unfold ab_ordered; simpl. now apply select_pair_inv in Hsel.
Qed.

Lemma loop_body_length n method st st' :
  ab_ordered st -> loop_body n method st = Ok st' ->
  ab_ordered st'
  /\ S (length (clusters st')) = length (clusters st)
  /\ length (linkage_matrix st') = S (length (linkage_matrix st)).
Proof.
  intros Hord Hstep. apply loop_body_Ok in Hstep.
  destruct Hstep as (md & a & b & ca & cb & nd & Hsel & Ha & Hb & _ & ->).
  apply select_pair_inv in Hsel; [| exact Hord]. destruct Hsel as [_ Hab].
  unfold ab_ordered; simpl. split; [exact Hab |].
  rewrite !length_app; simpl.
  rewrite without_slots_remove_two by exact Hab.
  assert (Hlen : (b < length (clusters st))%nat).
  { apply nth_error_Some. congruence. }
  pose proof (remove_two_length a b (clusters st) Hab Hlen). lia.
Qed.

Lemma reachable_counts data method st :
  reachable data method st ->
  (length (clusters st) + length (linkage_matrix st) = length data)%nat
  /\ index st = Py.len data + Py.len (linkage_matrix st).
Proof.
  induction 1 as [|st st' Hr IH Hstep].
  - rewrite initial_clusters_length. simpl. unfold Py.len. simpl. lia.
  - pose proof (reachable_ab_ordered _ _ _ Hr) as Hord.
    pose proof (loop_body_length _ _ _ _ Hord Hstep) as (_ & Hc & Hl).
    apply loop_body_Ok in Hstep.
    destruct Hstep as (md & a & b & ca & cb & nd & _ & _ & _ & _ & Hst).
    split; [lia |].
    unfold Py.len in *. rewrite Hl. rewrite Hst at 1. simpl. lia.
Qed.

Lemma reachable_distances data method st :
  reachable data method st ->
  Forall (fun r => is_nan (distance_of (array_row r)) = false)
         (linkage_matrix st).
Proof.
  induction 1 as [|st st' Hr IH Hstep].
  - constructor.
  - pose proof (reachable_ab_ordered _ _ _ Hr) as Hord.
    apply loop_body_Ok in Hstep.
    destruct Hstep as (md & a & b & ca & cb & nd & Hsel & _ & _ & _ & ->).
    simpl. apply Forall_app. split; [exact IH |].
    constructor; [| constructor]. simpl.
    now apply select_pair_inv in Hsel.
Qed.

Lemma reachable_members data method st :
  reachable data method st ->
  Permutation (concat (map snd (clusters st)))
              (map Z.of_nat (seq 0 (length data))).
Proof.
  induction 1 as [|st st' Hr IH Hstep].
  - unfold initial_state, Py.range; simpl.
    generalize (seq 0 (length data)). intros l.
    induction l as [|x l IHl]; simpl; [constructor | now constructor].
  - pose proof (reachable_ab_ordered _ _ _ Hr) as Hord.
    apply loop_body_Ok in Hstep.
    destruct Hstep as (md & a & b & ca & cb & nd & Hsel & Ha & Hb & _ & ->).
    apply select_pair_inv in Hsel; [| exact Hord]. destruct Hsel as [_ Hab].
    simpl. rewrite <- IH.
    rewrite without_slots_remove_two by exact Hab.
    pose proof (remove_two_members a b (clusters st) ca cb Hab Ha Hb) as Hp.
    rewrite !map_app, !concat_app in *. simpl in *. exact Hp.
Qed.

(** ** The loop as a whole *)

Lemma while_loop_reachable data method num_clusters fuel :
  forall st st',
  reachable data method st ->
  while_loop fuel (Py.len data) method num_clusters st = Some (Ok st') ->
  reachable data method st' /\ Py.len (clusters st') <= num_clusters.
Proof.
  induction fuel as [|fuel IH]; intros st st' Hr H; simpl in H;
    destruct (Py.len (clusters st) >? num_clusters) eqn:E;
    try discriminate.
  - inversion H; subst. split; [exact Hr | lia].
  - destruct (loop_body (Py.len data) method st) as [st1|e] eqn:Hstep;
      [| discriminate].
    apply (IH st1 st'); [| exact H]. now apply (reach_merge _ _ st).
  - inversion H; subst. split; [exact Hr | lia].
Qed.

Lemma while_loop_fuel n method num_clusters fuel :
  forall st,
  ab_ordered st -> (length (clusters st) < fuel)%nat ->
  while_loop fuel n method num_clusters st <> None.
Proof.
  induction fuel as [|fuel IH]; intros st Hord Hlen; [lia |].
  simpl. destruct (Py.len (clusters st) >? num_clusters); [| discriminate].
  destruct (loop_body n method st) as [st1|e] eqn:Hstep; [| discriminate].
  destruct (loop_body_length _ _ _ _ Hord Hstep) as (Hord1 & Hc & _).
  apply IH; [exact Hord1 | lia].
Qed.

(** The fuel given to the loop is always enough: the function returns or
    raises. *)
Lemma hierarchical_clustering_total data method num_clusters :
  hierarchical_clustering data method num_clusters <> None.
Proof.
  unfold hierarchical_clustering.
  pose proof (while_loop_fuel (Py.len data) method num_clusters
                (S (length data)) (initial_state data) I) as H.
  rewrite initial_clusters_length in H. specialize (H (Nat.lt_succ_diag_r _)).
  destruct (while_loop _ _ _ _ _) as [[st|e]|]; congruence.
Qed.

Lemma hierarchical_clustering_Ok data method num_clusters rows final :
  hierarchical_clustering data method num_clusters = Some (Ok (rows, final)) ->
  exists st,
    reachable data method st
    /\ Py.len (clusters st) <= num_clusters
    /\ linkage_matrix st <> []
    /\ rows = sort_by_distance (map array_row (linkage_matrix st))
    /\ final = clusters st.
Proof.
  unfold hierarchical_clustering. intros H.
  destruct (while_loop _ _ _ _ _) as [[st|e]|] eqn:Hloop; try discriminate.
  apply while_loop_reachable in Hloop; [| constructor].
  destruct Hloop as [Hr Hexit]. exists st.
  destruct (linkage_matrix st) as [|r l] eqn:Hl; simpl in H; [discriminate |].
  inversion H; subst. repeat split; try assumption. discriminate.
Qed.

(** ** Sorting the rows *)

Lemma np_lt_false_leb x y :
  is_nan x = false -> is_nan y = false ->
  np_lt x y = false -> (y <=? x)%float = true.
Proof.
  unfold np_lt. intros Hx Hy H. apply orb_false_iff in H.
  apply ltb_false_leb; tauto.
Qed.

Lemma np_lt_true_leb x y :
  is_nan y = false -> np_lt x y = true -> (x <=? y)%float = true.
Proof.
  unfold np_lt. intros Hy H. rewrite Hy in H. simpl in H.
  rewrite orb_false_r in H. now apply ltb_leb.
Qed.

Lemma insert_row_perm row sorted :
  Permutation (insert_row row sorted) (row :: sorted).
Proof.
  induction sorted as [|r l IH]; simpl; [reflexivity |].
  destruct (np_lt (distance_of r) (distance_of row)); [| reflexivity].
  rewrite IH. apply perm_swap.
Qed.

Lemma sort_by_distance_perm rows : Permutation (sort_by_distance rows) rows.
Proof.
  induction rows as [|r l IH]; simpl; [constructor |].
  rewrite insert_row_perm. now constructor.
Qed.

Lemma insert_row_ascending row sorted :
  is_nan (distance_of row) = false ->
  Forall (fun r => is_nan (distance_of r) = false) sorted ->
  ascending sorted -> ascending (insert_row row sorted).
Proof.
  unfold ascending. intros Hrow Hnan Hs.
  induction sorted as [|r l IH]; simpl.
  - repeat constructor.
  - inversion Hnan as [|? ? Hr Hl]; subst.
    inversion Hs as [|? ? Hsl Hhd]; subst.
    destruct (np_lt (distance_of r) (distance_of row)) eqn:E.
    + constructor; [now apply IH |].
      destruct l as [|r' l']; simpl.
      * constructor. now apply np_lt_true_leb.
      * destruct (np_lt (distance_of r') (distance_of row)).
        -- constructor. now inversion Hhd.
        -- constructor. now apply np_lt_true_leb.
    + constructor; [exact Hs |]. constructor.
      now apply np_lt_false_leb.
Qed.

Lemma sort_by_distance_ascending rows :
  Forall (fun r => is_nan (distance_of r) = false) rows ->
  ascending (sort_by_distance rows).
Proof.
  induction 1 as [|r l Hr Hl IH]; simpl; [constructor |].
  apply insert_row_ascending; [exact Hr | | exact IH].
  eapply Permutation_Forall; [| exact Hl].
  apply Permutation_sym, sort_by_distance_perm.
Qed.

(** C6: whenever the function returns, the rows of the returned linkage
    matrix are in ascending order of their distance, whatever the order in
    which the loop recorded them: they are a rearrangement of the rows of
    the state the loop ended in. *)
Theorem returned_rows_ascending data method num_clusters rows final :
  hierarchical_clustering data method num_clusters = Some (Ok (rows, final)) ->
  ascending rows
  /\ exists st,
       reachable data method st
       /\ Permutation rows (map array_row (linkage_matrix st)).
Proof.
  intros H. apply hierarchical_clustering_Ok in H.
  destruct H as (st & Hr & _ & _ & -> & _). split.
  - apply sort_by_distance_ascending.
    apply Forall_map. now apply reachable_distances in Hr.
  - exists st. split; [exact Hr | apply sort_by_distance_perm].
Qed.

Lemma returned_rows_ascending_witness :
  ascending [[0; 1; 1; 2]; [2; 3; 4; 2]; [4; 5; 4; 4]]%float
  /\ exists st,
       reachable four_points "single" st
       /\ Permutation [[0; 1; 1; 2]; [2; 3; 4; 2]; [4; 5; 4; 4]]%float
                      (map array_row (linkage_matrix st)).
Proof.
  apply (returned_rows_ascending four_points "single" 1 _ [(6, [0; 1; 2; 3])]).
  vm_compute. reflexivity.
Defined.

(** ** The merge step *)

(** C10: a merge takes the clusters in the slots [a < b] that the pair
    scan selected (the values of the variables [a] and [b] after the
    iteration) out of the list, keeps the others in order and appends the
    new cluster, whose members are those of [a] followed by those of [b] and
    whose identifier is the counter; the counter starts at the number of
    points, is the number of points plus the number of merges made so far,
    and grows by one. *)
Theorem merge_step data method st st' :
  reachable data method st ->
  loop_body (Py.len data) method st = Ok st' ->
  exists min_dist a b ca cb,
    select_pair (Py.len data) st = Ok (min_dist, Some (a, b))
    /\ ab st' = Some (a, b)
    /\ (a < b)%nat
    /\ nth_error (clusters st) a = Some ca
    /\ nth_error (clusters st) b = Some cb
    /\ clusters st' = remove_two a b (clusters st) ++ [(index st, snd ca ++ snd cb)]
    /\ linkage_matrix st' =
       linkage_matrix st
       ++ [(fst ca, fst cb, min_dist, Py.len (snd ca) + Py.len (snd cb))]
    /\ index (initial_state data) = Py.len data
    /\ index st = Py.len data + Py.len (linkage_matrix st)
    /\ index st' = index st + 1.
Proof.
  intros Hr Hstep.
  pose proof (reachable_ab_ordered _ _ _ Hr) as Hord.
  pose proof (reachable_counts _ _ _ Hr) as [_ Hidx].
  apply loop_body_Ok in Hstep.
  destruct Hstep as (md & a & b & ca & cb & nd & Hsel & Ha & Hb & _ & ->).
  pose proof (select_pair_inv _ _ _ _ _ Hsel Hord) as [_ Hab].
  exists md, a, b, ca, cb. simpl.
  rewrite without_slots_remove_two by exact Hab. auto 12.
Qed.

Lemma merge_step_witness :
  exists min_dist a b ca cb,
    select_pair (Py.len four_points) (initial_state four_points)
    = Ok (min_dist, Some (a, b))
    /\ ab after_first_merge = Some (a, b)
    /\ (a < b)%nat
    /\ nth_error (clusters (initial_state four_points)) a = Some ca
    /\ nth_error (clusters (initial_state four_points)) b = Some cb
    /\ clusters after_first_merge =
       remove_two a b (clusters (initial_state four_points))
       ++ [(index (initial_state four_points), snd ca ++ snd cb)]
    /\ linkage_matrix after_first_merge =
       linkage_matrix (initial_state four_points)
       ++ [(fst ca, fst cb, min_dist, Py.len (snd ca) + Py.len (snd cb))]
    /\ index (initial_state four_points) = Py.len four_points
    /\ index (initial_state four_points)
       = Py.len four_points + Py.len (linkage_matrix (initial_state four_points))
    /\ index after_first_merge = index (initial_state four_points) + 1.
Proof.
  apply (merge_step four_points "single" (initial_state four_points)
           after_first_merge).
  - apply reach_initial.
  - vm_compute. reflexivity.
Defined.

(** ** The number of merges *)

(** Whenever the function returns with fewer clusters requested than there
    are points, it made exactly as many merges as the difference, and the
    members of the final clusters are the points, each once. *)
Lemma returned_lengths data method num_clusters rows final :
  hierarchical_clustering data method num_clusters = Some (Ok (rows, final)) ->
  num_clusters < Py.len data
  /\ Py.len rows = Py.len data - num_clusters
  /\ Py.len final = num_clusters
  /\ Permutation (concat (map snd final)) (map Z.of_nat (seq 0 (length data))).
Proof.
  intros H.
  destruct (Z_lt_le_dec num_clusters (Py.len data)) as [Hlt | Hge].
  2:{ rewrite (zero_iterations_raise _ _ _ Hge) in H. discriminate. }
  unfold hierarchical_clustering in H.
  destruct (while_loop _ _ _ _ _) as [[st|e]|] eqn:Hloop; try discriminate.
  assert (Hexit : reachable data method st
                  /\ Py.len (clusters st) = num_clusters).
  { clear H. revert Hloop.
    assert (Hinit : reachable data method (initial_state data)
                    /\ num_clusters <= Py.len (clusters (initial_state data))).
    { split; [constructor |]. unfold Py.len in *.
      rewrite initial_clusters_length. lia. }
    revert Hinit. generalize (initial_state data) as st0.
    generalize (S (length data)) as fuel.
    induction fuel as [|fuel IH]; intros st0 [Hr Hle] Hloop; simpl in Hloop;
      destruct (Py.len (clusters st0) >? num_clusters) eqn:E;
      try discriminate.
    - inversion Hloop; subst. split; [exact Hr | lia].
    - destruct (loop_body (Py.len data) method st0) as [st1|e] eqn:Hstep;
        [| discriminate].
      apply (IH st1); [| exact Hloop]. split.
      + now apply (reach_merge _ _ st0).
      + pose proof (reachable_ab_ordered _ _ _ Hr) as Hord.
        destruct (loop_body_length _ _ _ _ Hord Hstep) as (_ & Hc & _).
        unfold Py.len in *. lia.
    - inversion Hloop; subst. split; [exact Hr | lia]. }
  destruct Hexit as [Hr Hk].
  destruct (linkage_matrix st) as [|r l] eqn:Hl; cbn [sorted_linkage bind] in H;
    [discriminate |].
  inversion H; subst rows final. clear H.
  pose proof (reachable_counts _ _ _ Hr) as [Hcount _].
  split; [exact Hlt |]. split; [| split; [exact Hk |]].
  - unfold Py.len in *.
    rewrite (Permutation_length (insert_row_perm _ _)). cbn [length].
    rewrite (Permutation_length (sort_by_distance_perm _)), length_map.
    rewrite Hl in Hcount. cbn [length] in Hcount. lia.
  - now apply reachable_members in Hr.
Qed.

(** C7: with a single point and one requested cluster (so that
    1 <= num_clusters <= N) no merge is made and the function raises
    IndexError instead of returning a record of length 0. *)
Theorem single_point_raises :
  Py.len [[0%float]] = 1
  /\ hierarchical_clustering [[0%float]] "single" 1 = Some (Raise IndexError).
Proof. split; vm_compute; reflexivity. Qed.

(** ** The distance update *)

Lemma triangular_even i : 0 <= i -> 2 * (i * (i + 1) / 2) = i * (i + 1).
Proof.
  intros Hi. destruct (Z.Even_or_Odd i) as [[k Hk] | [k Hk]]; subst i.
  - replace (2 * k * (2 * k + 1)) with (k * (2 * k + 1) * 2) by ring.
    rewrite Z.div_mul by lia. ring.
  - replace ((2 * k + 1) * (2 * k + 1 + 1)) with ((2 * k + 1) * (k + 1) * 2)
      by ring.
    rewrite Z.div_mul by lia. ring.
Qed.

Lemma packed_position_range n i j :
  0 <= i -> i < j -> j < n ->
  0 <= n * i - i * (i + 1) / 2 + (j - i - 1)
  /\ 2 * (n * i - i * (i + 1) / 2 + (j - i - 1)) + 2 <= n * (n - 1).
Proof.
  intros Hi Hij Hjn. pose proof (triangular_even i Hi) as He.
  set (q := i * (i + 1) / 2) in *. split; nia.
Qed.

Lemma condensed_length_Z n :
  Z.of_nat (condensed_length n) = Z.of_nat n * (Z.of_nat n - 1) / 2.
Proof.
  unfold condensed_length. destruct n as [|n]; [reflexivity |].
  rewrite Nat2Z.inj_div, Nat2Z.inj_mul, Nat2Z.inj_sub by lia. reflexivity.
Qed.

Lemma condensed_index_range n x y :
  (x < n)%nat -> (y < n)%nat -> x <> y ->
  0 <= _condensed_index (Z.of_nat n) (Z.of_nat x) (Z.of_nat y)
     < Z.of_nat (condensed_length n).
Proof.
  intros Hx Hy Hne. rewrite condensed_length_Z. unfold _condensed_index.
  assert (Hdiv : forall k, 2 * k + 2 <= Z.of_nat n * (Z.of_nat n - 1) ->
                           k < Z.of_nat n * (Z.of_nat n - 1) / 2).
  { intros k Hk. apply Z.lt_le_trans with (k + 1); [lia |].
    apply Z.div_le_lower_bound; lia. }
  destruct (Z.of_nat x <? Z.of_nat y) eqn:E1.
  - destruct (packed_position_range (Z.of_nat n) (Z.of_nat x) (Z.of_nat y))
      as [H0 H1]; try lia. split; [exact H0 | now apply Hdiv].
  - destruct (Z.of_nat x >? Z.of_nat y) eqn:E2; [| lia].
    destruct (packed_position_range (Z.of_nat n) (Z.of_nat y) (Z.of_nat x))
      as [H0 H1]; try lia. split; [exact H0 | now apply Hdiv].
Qed.

Lemma get_entry dv n x y :
  (x < n)%nat -> (y < n)%nat -> x <> y ->
  (condensed_length n <= length dv)%nat ->
  Py.get dv (_condensed_index (Z.of_nat n) (Z.of_nat x) (Z.of_nat y))
  = Ok (entry dv n x y).
Proof.
  intros Hx Hy Hne Hlen. unfold entry. apply get_nth.
  pose proof (condensed_index_range n x y Hx Hy Hne). unfold Py.len. lia.
Qed.

Lemma update_loop_map body a b f slots :
  forall new_distances,
  (forall i, In i slots -> i <> a -> i <> b -> body i = Ok (f i)) ->
  update_loop body a b slots new_distances =
  Ok (new_distances
      ++ map f (filter (fun i => negb (Nat.eqb i a) && negb (Nat.eqb i b)) slots)).
Proof.
  induction slots as [|i rest IH]; intros acc Hbody; simpl.
  - now rewrite app_nil_r.
  - destruct (Nat.eqb_spec i a) as [Ha | Ha]; simpl.
    + apply IH. intros j Hj. apply Hbody. now right.
    + destruct (Nat.eqb_spec i b) as [Hb | Hb]; simpl.
      * apply IH. intros j Hj. apply Hbody. now right.
      * rewrite (Hbody i) by (auto; now left). simpl.
        rewrite IH by (intros j Hj; apply Hbody; now right).
        now rewrite <- app_assoc.
Qed.

Lemma linkage_of_known method :
  known_method method = true <-> exists m, linkage_of method = Some m.
Proof.
  unfold known_method, linkage_of. simpl.
  destruct (method =? "single")%string; [split; eauto |].
  destruct (method =? "complete")%string; [split; eauto |].
  destruct (method =? "average")%string; [split; eauto |].
  destruct (method =? "centroid")%string; [split; eauto |].
  destruct (method =? "ward")%string; [split; eauto |].
  simpl. split; [discriminate | intros [m H]; discriminate].
Qed.

Lemma new_dist_for_formula dv clusters a b method m i :
  linkage_of method = Some m ->
  (a < length clusters)%nat -> (b < length clusters)%nat ->
  (i < length clusters)%nat -> a <> b -> i <> a -> i <> b ->
  (condensed_length (length clusters) <= length dv)%nat ->
  new_dist_for dv (Py.len clusters) a b (size_at clusters a) (size_at clusters b)
               clusters method i
  = Ok (new_dist_value m (size_at clusters a) (size_at clusters b)
          (size_at clusters i)
          (entry dv (length clusters) a i) (entry dv (length clusters) b i)
          (entry dv (length clusters) a b)).
Proof.
  intros Hm Ha Hb Hi Hab Hia Hib Hlen.
  unfold new_dist_for, Py.len at 1 2 3 4.
  rewrite !get_entry by auto. cbn [bind].
  rewrite (item_nth clusters i (0, [])) by exact Hi. cbn [bind].
  unfold linkage_of in Hm.
  destruct (method =? "single")%string; [now inversion Hm |].
  destruct (method =? "complete")%string; [now inversion Hm |].
  destruct (method =? "average")%string; [now inversion Hm |].
  destruct (method =? "centroid")%string; [now inversion Hm |].
  destruct (method =? "ward")%string; [now inversion Hm | discriminate].
Qed.

Lemma update_distance_matrix_map dv clusters a b method m :
  linkage_of method = Some m ->
  (a < length clusters)%nat -> (b < length clusters)%nat -> a <> b ->
  (condensed_length (length clusters) <= length dv)%nat ->
  update_distance_matrix dv a b clusters method =
    Ok (map (fun i => new_dist_value m (size_at clusters a) (size_at clusters b)
                        (size_at clusters i)
                        (entry dv (length clusters) a i)
                        (entry dv (length clusters) b i)
                        (entry dv (length clusters) a b))
            (remaining_slots a b (length clusters))).
Proof.
  intros Hm Ha Hb Hab Hlen. unfold update_distance_matrix.
  rewrite (item_nth clusters a (0, [])), (item_nth clusters b (0, []))
    by assumption.
  cbn [bind]. fold (size_at clusters a) (size_at clusters b).
  unfold Py.range, remaining_slots.
  rewrite update_loop_map with
    (f := fun i => new_dist_value m (size_at clusters a) (size_at clusters b)
                     (size_at clusters i)
                     (entry dv (length clusters) a i)
                     (entry dv (length clusters) b i)
                     (entry dv (length clusters) a b)).
  - reflexivity.
  - intros i Hi Hia Hib. apply in_seq in Hi.
    apply new_dist_for_formula; auto; lia.
Qed.

Lemma merge_clusters_remaining clusters a b index :
  (a < length clusters)%nat -> (b < length clusters)%nat ->
  merge_clusters clusters a b index =
    Ok (map (fun i => nth i clusters (0, []))
            (remaining_slots a b (length clusters))
        ++ [(index, snd (nth a clusters (0, [])) ++ snd (nth b clusters (0, [])))]).
Proof.
  intros Ha Hb. unfold merge_clusters.
  rewrite (item_nth clusters a (0, [])), (item_nth clusters b (0, []))
    by assumption.
  cbn [bind]. now rewrite without_slots_remaining.
Qed.

Lemma new_dist_value_formula m sa sb si da db dab :
  (m = Single \/ m = Complete -> is_nan da = false /\ is_nan db = false) ->
  new_dist_value m sa sb si da db dab = lance_williams m sa sb si da db dab.
Proof.
  intros Hnum. destruct m; try reflexivity; simpl.
  - destruct Hnum as [Ha Hb]; [now left |]. now apply py_min_float_min.
  - destruct Hnum as [Ha Hb]; [now right |]. now apply py_max_float_max.
Qed.

(** C9: the update returns one distance for each slot other than [a] and
    [b], in increasing slot order, which is the order in which the merge
    re-enumerates the surviving clusters; each distance is the formula of
    the method applied to the sizes and to the entries of the condensed
    array for (a,i), (b,i) and (a,b): the minimum for single, the maximum
    for complete (the two entries being numbers), the weighted mean for
    average, the square roots of the centroid and ward radicands. *)
Theorem update_distance_matrix_formulas dv clusters a b method m index :
  linkage_of method = Some m ->
  (a < length clusters)%nat -> (b < length clusters)%nat -> a <> b ->
  (condensed_length (length clusters) <= length dv)%nat ->
  (m = Single \/ m = Complete ->
   forall i, In i (remaining_slots a b (length clusters)) ->
     is_nan (entry dv (length clusters) a i) = false
     /\ is_nan (entry dv (length clusters) b i) = false) ->
  update_distance_matrix dv a b clusters method =
    Ok (map (fun i => lance_williams m (size_at clusters a) (size_at clusters b)
                        (size_at clusters i)
                        (entry dv (length clusters) a i)
                        (entry dv (length clusters) b i)
                        (entry dv (length clusters) a b))
            (remaining_slots a b (length clusters)))
  /\ merge_clusters clusters a b index =
    Ok (map (fun i => nth i clusters (0, []))
            (remaining_slots a b (length clusters))
        ++ [(index, snd (nth a clusters (0, [])) ++ snd (nth b clusters (0, [])))]).
Proof.
  intros Hm Ha Hb Hab Hlen Hnum. split.
  - rewrite (update_distance_matrix_map dv clusters a b method m) by assumption.
    f_equal. apply map_ext_in. intros i Hi.
    apply new_dist_value_formula. intros Hmm. now apply Hnum.
  - now apply merge_clusters_remaining.
Qed.

Lemma update_distance_matrix_formulas_witness :
  update_distance_matrix (dist_vector after_first_merge) 0 1
                         (clusters after_first_merge) "single" =
    Ok (map (fun i => lance_williams Single
                        (size_at (clusters after_first_merge) 0)
                        (size_at (clusters after_first_merge) 1)
                        (size_at (clusters after_first_merge) i)
                        (entry (dist_vector after_first_merge)
                               (length (clusters after_first_merge)) 0 i)
                        (entry (dist_vector after_first_merge)
                               (length (clusters after_first_merge)) 1 i)
                        (entry (dist_vector after_first_merge)
                               (length (clusters after_first_merge)) 0 1))
            (remaining_slots 0 1 (length (clusters after_first_merge))))
  /\ merge_clusters (clusters after_first_merge) 0 1 5 =
    Ok (map (fun i => nth i (clusters after_first_merge) (0, []))
            (remaining_slots 0 1 (length (clusters after_first_merge)))
        ++ [(5, snd (nth 0%nat (clusters after_first_merge) (0, []))
                ++ snd (nth 1%nat (clusters after_first_merge) (0, [])))]).
Proof.
  apply (update_distance_matrix_formulas (dist_vector after_first_merge)
           (clusters after_first_merge) 0 1 "single" Single 5).
  - reflexivity.
  - simpl; lia.
  - simpl; lia.
  - discriminate.
  - vm_compute. lia.
  - intros _ i Hi. vm_compute in Hi. destruct Hi as [<- | []].
    split; vm_compute; reflexivity.
Defined.

(** ** Method names outside the five *)







(** ** Square roots in the centroid and ward updates *)

(** C5 (as amended): for the centroid and ward methods the new distance is
    the square root of the radicand as computed, with no clamping; it is
    not-a-number exactly when the radicand is negative or not-a-number. *)
Theorem root_not_clamped dv n a b sa sb clusters method i d :
  method = "centroid"%string \/ method = "ward"%string ->
  new_dist_for dv n a b sa sb clusters method i = Ok d ->
  exists da db dab si radicand,
    Py.get dv (_condensed_index n (Z.of_nat a) (Z.of_nat i)) = Ok da
    /\ Py.get dv (_condensed_index n (Z.of_nat b) (Z.of_nat i)) = Ok db
    /\ Py.get dv (_condensed_index n (Z.of_nat a) (Z.of_nat b)) = Ok dab
    /\ (method = "ward"%string ->
        exists ci, nth_error clusters i = Some ci /\ si = Py.len (snd ci))
    /\ radicand = (if (method =? "centroid")%string
                   then centroid_radicand sa sb da db dab
                   else ward_radicand sa sb si da db dab)
    /\ d = PrimFloat.sqrt radicand
    /\ is_nan d = is_nan radicand || (radicand <? 0)%float.
Proof.
  intros Hm H. unfold new_dist_for in H.
  inv_bind H as da Hda. inv_bind H as db Hdb.
  destruct Hm as [-> | ->]; simpl in H.
  - inv_bind H as dab Hdab. inversion H; subst d.
    exists da, db, dab, 0, (centroid_radicand sa sb da db dab).
    repeat split; try assumption.
    + discriminate.
    + apply sqrt_nan_iff.
  - inv_bind H as ci Hci. inv_bind H as dab Hdab. inversion H; subst d.
    apply item_Ok in Hci.
    exists da, db, dab, (Py.len (snd ci)),
      (ward_radicand sa sb (Py.len (snd ci)) da db dab).
    repeat split; try assumption.
    + intros _. exists ci. auto.
    + apply sqrt_nan_iff.
Qed.

Lemma root_not_clamped_witness :
  exists da db dab si radicand,
    Py.get (dist_vector after_centroid_merge)
           (_condensed_index 3 (Z.of_nat 0) (Z.of_nat 1)) = Ok da
    /\ Py.get (dist_vector after_centroid_merge)
              (_condensed_index 3 (Z.of_nat 2) (Z.of_nat 1)) = Ok db
    /\ Py.get (dist_vector after_centroid_merge)
              (_condensed_index 3 (Z.of_nat 0) (Z.of_nat 2)) = Ok dab
    /\ ("centroid"%string = "ward"%string ->
        exists ci, nth_error (clusters after_centroid_merge) 1 = Some ci
                   /\ si = Py.len (snd ci))
    /\ radicand = (if ("centroid" =? "centroid")%string
                   then centroid_radicand 1 2 da db dab
                   else ward_radicand 1 2 si da db dab)
    /\ nan = PrimFloat.sqrt radicand
    /\ is_nan nan = is_nan radicand || (radicand <? 0)%float.
Proof.
  apply (root_not_clamped (dist_vector after_centroid_merge) 3 0 2 1 2
           (clusters after_centroid_merge) "centroid" 1 nan).
  - now left.
  - vm_compute. reflexivity.
Defined.

(** C5 (as stated) fails: on the points 0, 2, 6, 3 with the centroid method
    the second iteration selects slots 0 and 2 and its update computes the
    square root of a negative radicand, a not-a-number distance that is
    stored in the distance array. *)
Lemma centroid_update_not_a_number :
  loop_body 4 "centroid" (initial_state centroid_points)
  = Ok after_centroid_merge
  /\ select_pair 4 after_centroid_merge = Ok (2%float, Some (0%nat, 2%nat))
  /\ (centroid_radicand 1 2 2 3 6 <? 0)%float = true
  /\ update_distance_matrix (dist_vector after_centroid_merge) 0 2
                            (clusters after_centroid_merge) "centroid"
     = Ok [nan]
  /\ is_nan nan = true.
Proof. repeat split; vm_compute; reflexivity. Qed.

(** ** The length of the distance array *)

Lemma condensed_length_S n : condensed_length (S n) = (n + condensed_length n)%nat.
Proof.
  unfold condensed_length. destruct n as [|n]; [reflexivity |].
  replace (S (S n) * (S (S n) - 1))%nat with (S n * (S n - 1) + S n * 2)%nat
    by (simpl; lia).
  rewrite Nat.div_add by lia. lia.
Qed.

Lemma condensed_length_mono m n :
  (m <= n)%nat -> (condensed_length m <= condensed_length n)%nat.
Proof.
  induction 1 as [|n Hle IH]; [lia |]. rewrite condensed_length_S. lia.
Qed.

Lemma pdist_length data : length (pdist data) = condensed_length (length data).
Proof.
  induction data as [|u rest IH]; [reflexivity |].
  cbn [pdist length]. rewrite length_app, length_map, IH, condensed_length_S.
  reflexivity.
Qed.

Lemma update_loop_length body a b slots :
  forall acc new_distances,
  update_loop body a b slots acc = Ok new_distances ->
  length new_distances =
  (length acc
   + length (filter (fun i => negb (Nat.eqb i a) && negb (Nat.eqb i b)) slots))%nat.
Proof.
  induction slots as [|i rest IH]; intros acc nd H; simpl in *.
  - inversion H; subst. lia.
  - destruct (negb (Nat.eqb i a) && negb (Nat.eqb i b)); simpl.
    + inv_bind H as d Hd. apply IH in H. rewrite length_app in H. simpl in H. lia.
    + now apply IH.
Qed.

Lemma remaining_slots_length a b n :
  (a < b)%nat -> (b < n)%nat -> S (S (length (remaining_slots a b n))) = n.
Proof.
  intros Hab Hb.
  pose proof (without_slots_remaining a b (repeat (0, []) n)) as H.
  rewrite repeat_length in H.
  apply (f_equal (@length cluster)) in H. rewrite length_map in H.
  rewrite <- H, without_slots_remove_two by exact Hab.
  rewrite <- (repeat_length (0, @nil Z) n) at 2.
  apply remove_two_length; [exact Hab | now rewrite repeat_length].
Qed.

Lemma splice_length {A : Type} (dv : list A) k :
  0 <= k < Py.len dv ->
  S (length (Py.slice_to dv k ++ Py.slice_from dv (k + 1))) = length dv.
Proof.
  unfold Py.slice_to, Py.slice_from, Py.bound, Py.len. intros Hk.
  destruct (k <? 0) eqn:E1; [lia |].
  destruct (k + 1 <? 0) eqn:E2; [lia |].
  rewrite length_app, length_firstn, length_skipn. lia.
Qed.

(** One iteration with [m] active clusters changes the length of the
    distance array by [m - 3]. *)
Lemma loop_body_dist_vector data method st st' :
  reachable data method st ->
  (condensed_length (length data) <= length (dist_vector st))%nat ->
  loop_body (Py.len data) method st = Ok st' ->
  (length (dist_vector st') + 3
   = length (dist_vector st) + length (clusters st))%nat.
Proof.
  intros Hr Hlen Hstep.
  pose proof (reachable_ab_ordered _ _ _ Hr) as Hord.
  pose proof (reachable_counts _ _ _ Hr) as [Hcount _].
  apply loop_body_Ok in Hstep.
  destruct Hstep as (md & a & b & ca & cb & nd & Hsel & Ha & Hb & Hupd & ->).
  apply select_pair_inv in Hsel; [| exact Hord]. destruct Hsel as [_ Hab].
  assert (Hbn : (b < length (clusters st))%nat).
  { apply nth_error_Some. congruence. }
  unfold update_distance_matrix in Hupd.
  inv_bind Hupd as ca' Hca. inv_bind Hupd as cb' Hcb.
  apply update_loop_length in Hupd. simpl in Hupd. unfold Py.range in Hupd.
  fold (remaining_slots a b (length (clusters st))) in Hupd.
  pose proof (remaining_slots_length a b _ Hab Hbn) as Hrem.
  simpl. rewrite app_assoc, length_app.
  pose proof (condensed_index_range (length data) a b) as Hidx.
  pose proof (splice_length (dist_vector st)
                (_condensed_index (Py.len data) (Z.of_nat a) (Z.of_nat b))) as Hs.
  unfold Py.len in *.
  assert (Hin : 0 <= _condensed_index (Z.of_nat (length data)) (Z.of_nat a)
                       (Z.of_nat b) < Z.of_nat (length (dist_vector st))).
  { assert (Hd : (length (clusters st) <= length data)%nat) by lia.
    destruct Hidx; lia. }
  specialize (Hs Hin). lia.
Qed.

Lemma reachable_dist_vector data method st :
  reachable data method st ->
  (2 <= length (clusters st))%nat ->
  (condensed_length (length data) <= length (dist_vector st))%nat.
Proof.
  induction 1 as [|st st' Hr IH Hstep]; intros Hm.
  - unfold initial_state, compute_distance_matrix; simpl.
    now rewrite pdist_length.
  - pose proof (reachable_ab_ordered _ _ _ Hr) as Hord.
    destruct (loop_body_length _ _ _ _ Hord Hstep) as (_ & Hc & _).
    assert (IH' : (condensed_length (length data) <= length (dist_vector st))%nat)
      by (apply IH; lia).
    pose proof (loop_body_dist_vector _ _ _ _ Hr IH' Hstep). lia.
Qed.

(** A merge that leaves at least two clusters never leaves a distance array
    of the condensed length for them. *)
Lemma merge_breaks_condensed_length data method st st' :
  reachable data method st ->
  loop_body (Py.len data) method st = Ok st' ->
  (2 <= length (clusters st'))%nat ->
  (condensed_length (length (clusters st')) < length (dist_vector st'))%nat.
Proof.
  intros Hr Hstep Hm.
  pose proof (reachable_ab_ordered _ _ _ Hr) as Hord.
  destruct (loop_body_length _ _ _ _ Hord Hstep) as (_ & Hc & _).
  pose proof (reachable_counts _ _ _ Hr) as [Hcount _].
  assert (Hlen : (condensed_length (length data) <= length (dist_vector st))%nat)
    by (apply (reachable_dist_vector _ method); [exact Hr | lia]).
  pose proof (loop_body_dist_vector _ _ _ _ Hr Hlen Hstep) as Hdv.
  assert (Hmono : (condensed_length (length (clusters st))
                   <= condensed_length (length data))%nat)
    by (apply condensed_length_mono; lia).
  rewrite <- Hc, condensed_length_S in Hmono. lia.
Qed.

(** ** Runs that return *)

Lemma without_slots_Forall (P : cluster -> Prop) a b s l :
  Forall P l -> Forall P (without_slots a b s l).
Proof.
  intros H. revert s. induction H as [|c l Hc Hl IH]; intros s; simpl.
  - constructor.
  - destruct (Nat.eqb s a || Nat.eqb s b); [apply IH | constructor; auto].
Qed.

Lemma reachable_nonempty data method st :
  reachable data method st -> Forall (fun c => snd c <> []) (clusters st).
Proof.
  induction 1 as [|st st' Hr IH Hstep].
  - unfold initial_state; simpl. apply Forall_map, Forall_forall.
    intros i _. discriminate.
  - apply loop_body_Ok in Hstep.
    destruct Hstep as (md & a & b & ca & cb & nd & _ & Ha & _ & _ & ->).
    simpl. apply Forall_app. split; [now apply without_slots_Forall |].
    constructor; [| constructor]. simpl.
    apply nth_error_In in Ha. rewrite Forall_forall in IH.
    specialize (IH ca Ha). destruct (snd ca); [congruence | discriminate].
Qed.

Lemma first_members_distinct (cl : list cluster) N i j ci cj p q rp rq :
  Permutation (concat (map snd cl)) (map Z.of_nat (seq 0 N)) ->
  (i < j)%nat -> nth_error cl i = Some ci -> nth_error cl j = Some cj ->
  snd ci = p :: rp -> snd cj = q :: rq ->
  exists x y, p = Z.of_nat x /\ q = Z.of_nat y
              /\ (x < N)%nat /\ (y < N)%nat /\ x <> y.
Proof.
  intros Hperm Hij Hi Hj Hp Hq.
  assert (Hnd : NoDup (concat (map snd cl))).
  { apply (Permutation_NoDup (Permutation_sym Hperm)).
    apply Injective_map_NoDup; [| apply seq_NoDup].
    intros x y. apply Nat2Z.inj. }
  rewrite (split_two i j cl ci cj Hij Hi Hj) in Hnd, Hperm.
  rewrite !map_app, !concat_app in Hnd, Hperm. simpl in Hnd, Hperm.
  rewrite !map_app, !concat_app in Hnd, Hperm. simpl in Hnd, Hperm.
  rewrite Hp, Hq in Hnd, Hperm. simpl in Hnd, Hperm.
  assert (Hinp : In p (map Z.of_nat (seq 0 N))).
  { apply (Permutation_in _ Hperm). apply in_or_app. right. now left. }
  assert (Hinq : In q (map Z.of_nat (seq 0 N))).
  { apply (Permutation_in _ Hperm). apply in_or_app. right. right.
    apply in_or_app. right. apply in_or_app. right. now left. }
  apply in_map_iff in Hinp, Hinq.
  destruct Hinp as (x & <- & Hx), Hinq as (y & <- & Hy).
  apply in_seq in Hx, Hy. exists x, y. repeat split; try lia.
  intros ->. apply NoDup_remove_2 in Hnd. apply Hnd.
  apply in_or_app. right.
  apply in_or_app. right. apply in_or_app. right. now left.
Qed.

Lemma entry_below_infinity dv n x y :
  Forall below_infinity dv ->
  (x < n)%nat -> (y < n)%nat -> x <> y ->
  (condensed_length n <= length dv)%nat ->
  below_infinity (entry dv n x y).
Proof.
  intros Hdv Hx Hy Hne Hlen. unfold entry.
  rewrite Forall_forall in Hdv. apply Hdv, nth_In.
  pose proof (condensed_index_range n x y Hx Hy Hne). lia.
Qed.

Lemma pair_distance_below_infinity data method st i j :
  reachable data method st ->
  Forall below_infinity (dist_vector st) ->
  (condensed_length (length data) <= length (dist_vector st))%nat ->
  (i < j)%nat -> (j < length (clusters st))%nat ->
  exists d, pair_distance (Py.len data) (dist_vector st) (clusters st) i j = Ok d
            /\ below_infinity d.
Proof.
  intros Hr Hdv Hlen Hij Hj.
  pose proof (reachable_members _ _ _ Hr) as Hperm.
  pose proof (reachable_nonempty _ _ _ Hr) as Hne.
  destruct (nth_error (clusters st) i) as [ci|] eqn:Hi;
    [| apply nth_error_None in Hi; lia].
  destruct (nth_error (clusters st) j) as [cj|] eqn:Hcj;
    [| apply nth_error_None in Hcj; lia].
  rewrite Forall_forall in Hne.
  pose proof (Hne ci (nth_error_In _ _ Hi)) as Hnei.
  pose proof (Hne cj (nth_error_In _ _ Hcj)) as Hnej.
  destruct (snd ci) as [|p rp] eqn:Hp; [congruence |].
  destruct (snd cj) as [|q rq] eqn:Hq; [congruence |].
  destruct (first_members_distinct _ _ _ _ _ _ _ _ _ _ Hperm Hij Hi Hcj Hp Hq)
    as (x & y & -> & -> & Hx & Hy & Hxy).
  exists (entry (dist_vector st) (length data) x y). split.
  - unfold pair_distance.
    apply item_Ok in Hi, Hcj. rewrite Hi, Hcj. cbn [bind].
    rewrite Hp, Hq. cbn. unfold Py.len. now apply get_entry.
  - now apply entry_below_infinity.
Qed.

Lemma scan_pairs_total n dv cl pairs :
  (forall i j, In (i, j) pairs ->
     exists d, pair_distance n dv cl i j = Ok d /\ below_infinity d) ->
  forall min_dist ab,
  exists min_dist' ab',
    scan_pairs n dv cl pairs min_dist ab = Ok (min_dist', ab')
    /\ (ab' = ab \/ exists p, In p pairs /\ ab' = Some p).
Proof.
  induction pairs as [|[i j] rest IH]; intros Hreads md ab.
  - exists md, ab. simpl. auto.
  - destruct (Hreads i j (or_introl eq_refl)) as (d & Hd & _).
    assert (Hrest : forall i' j', In (i', j') rest ->
              exists d', pair_distance n dv cl i' j' = Ok d' /\ below_infinity d').
    { intros i' j' H. apply Hreads. now right. }
    simpl. rewrite Hd. cbn [bind].
    destruct (d <? md)%float.
    + destruct (IH Hrest d (Some (i, j))) as (md' & ab' & -> & Hab).
      exists md', ab'. split; [reflexivity |]. right.
      destruct Hab as [-> | (p & Hp & ->)]; eauto.
    + destruct (IH Hrest md ab) as (md' & ab' & -> & Hab).
      exists md', ab'. split; [reflexivity |].
      destruct Hab as [-> | (p & Hp & ->)]; [now left | right; eauto].
Qed.

Lemma select_pair_total data method st :
  reachable data method st ->
  Forall below_infinity (dist_vector st) ->
  (2 <= length (clusters st))%nat ->
  exists min_dist a b,
    select_pair (Py.len data) st = Ok (min_dist, Some (a, b))
    /\ (a < b)%nat /\ (b < length (clusters st))%nat.
Proof.
  intros Hr Hdv Hm.
  pose proof (reachable_dist_vector _ _ _ Hr Hm) as Hlen.
  assert (Hreads : forall i j, In (i, j) (scan_order (length (clusters st))) ->
            exists d, pair_distance (Py.len data) (dist_vector st) (clusters st) i j
                      = Ok d /\ below_infinity d).
  { intros i j Hin. apply scan_order_spec in Hin.
    apply (pair_distance_below_infinity data method); auto; lia. }
  unfold select_pair.
  destruct (scan_order (length (clusters st))) as [|[i j] rest] eqn:Hso.
  - exfalso. destruct (length (clusters st)) as [|[|m]]; try lia.
    discriminate Hso.
  - destruct (Hreads i j (or_introl eq_refl)) as (d & Hd & Hinf).
    simpl. rewrite Hd. cbn [bind]. unfold below_infinity in Hinf. rewrite Hinf.
    destruct (scan_pairs_total (Py.len data) (dist_vector st) (clusters st) rest)
      with (min_dist := d) (ab := Some (i, j)) as (md' & ab' & Hscan & Hab).
    { intros i' j' H. apply Hreads. now right. }
    assert (Hin : exists a b, ab' = Some (a, b)
                   /\ In (a, b) (scan_order (length (clusters st)))).
    { rewrite Hso. destruct Hab as [-> | ([a b] & Hp & ->)].
      - exists i, j. split; [reflexivity | now left].
      - exists a, b. split; [reflexivity | now right]. }
    destruct Hin as (a & b & -> & Hin). apply scan_order_spec in Hin.
    exists md', a, b. rewrite Hscan. repeat split; lia.
Qed.

Lemma slices_Forall (P : float64 -> Prop) dv k :
  Forall P dv -> Forall P (Py.slice_to dv k ++ Py.slice_from dv (k + 1)).
Proof.
  intros H. unfold Py.slice_to, Py.slice_from. apply Forall_app. split.
  - rewrite <- (firstn_skipn (Py.bound (Py.len dv) k) dv) in H.
    now apply Forall_app in H.
  - rewrite <- (firstn_skipn (Py.bound (Py.len dv) (k + 1)) dv) in H.
    now apply Forall_app in H.
Qed.

Lemma min_max_below_infinity m sa sb si da db dab :
  m = Single \/ m = Complete ->
  below_infinity da -> below_infinity db ->
  below_infinity (new_dist_value m sa sb si da db dab).
Proof.
  intros [-> | ->] Ha Hb; simpl; unfold py_min, py_max.
  - now destruct (db <? da)%float.
  - now destruct (da <? db)%float.
Qed.

Lemma loop_body_total data method st :
  method = "single"%string \/ method = "complete"%string ->
  reachable data method st ->
  Forall below_infinity (dist_vector st) ->
  (2 <= length (clusters st))%nat ->
  exists st',
    loop_body (Py.len data) method st = Ok st'
    /\ Forall below_infinity (dist_vector st').
Proof.
  intros Hmethod Hr Hdv Hm.
  assert (Hlink : exists m, linkage_of method = Some m
                            /\ (m = Single \/ m = Complete)).
  { destruct Hmethod as [-> | ->]; eexists; split; try reflexivity; auto. }
  destruct Hlink as (m & Hlink & Hmm).
  destruct (select_pair_total _ _ _ Hr Hdv Hm) as (md & a & b & Hsel & Hab & Hb).
  pose proof (reachable_dist_vector _ _ _ Hr Hm) as Hlen.
  pose proof (reachable_counts _ _ _ Hr) as [Hcount _].
  assert (Hlen' : (condensed_length (length (clusters st))
                   <= length (dist_vector st))%nat).
  { etransitivity; [apply condensed_length_mono | exact Hlen]. lia. }
  assert (Ha : (a < length (clusters st))%nat) by lia.
  assert (Hne : a <> b) by lia.
  unfold loop_body. rewrite Hsel. cbn [bind fst snd read_ab].
  rewrite (item_nth (clusters st) a (0, [])), (item_nth (clusters st) b (0, []))
    by assumption.
  cbn [bind].
  rewrite (update_distance_matrix_map _ _ _ _ _ m Hlink Ha Hb Hne Hlen').
  cbn [bind].
  rewrite (merge_clusters_remaining _ _ _ _ Ha Hb). cbn [bind].
  eexists. split; [reflexivity |]. cbn [dist_vector].
  rewrite app_assoc. apply Forall_app. split; [now apply slices_Forall |].
  apply Forall_map, Forall_forall. intros i Hi.
  unfold remaining_slots in Hi. apply filter_In in Hi.
  destruct Hi as [Hi Hneq]. apply in_seq in Hi.
  apply andb_true_iff in Hneq. destruct Hneq as [Hia Hib].
  apply negb_true_iff in Hia, Hib. apply Nat.eqb_neq in Hia, Hib.
  apply min_max_below_infinity; [exact Hmm | |];
    apply entry_below_infinity; auto; lia.
Qed.

Lemma while_loop_total data method num_clusters :
  method = "single"%string \/ method = "complete"%string ->
  1 <= num_clusters ->
  forall fuel st,
  reachable data method st ->
  Forall below_infinity (dist_vector st) ->
  (length (clusters st) < fuel)%nat ->
  exists st',
    while_loop fuel (Py.len data) method num_clusters st = Some (Ok st').
Proof.
  intros Hmethod Hk. induction fuel as [|fuel IH]; intros st Hr Hdv Hfuel;
    [lia |].
  simpl. destruct (Py.len (clusters st) >? num_clusters) eqn:E; [| eauto].
  assert (Hm : (2 <= length (clusters st))%nat) by (unfold Py.len in E; lia).
  destruct (loop_body_total _ _ _ Hmethod Hr Hdv Hm) as (st1 & Hstep & Hdv1).
  rewrite Hstep. apply IH.
  - now apply (reach_merge _ _ st).
  - exact Hdv1.
  - pose proof (reachable_ab_ordered _ _ _ Hr) as Hord.
    destruct (loop_body_length _ _ _ _ Hord Hstep) as (_ & Hc & _). lia.
Qed.

(** With single or complete linkage, pairwise distances below infinity and
    a requested number of clusters from 1 to N - 1, the function returns:
    the record has N - num_clusters rows, num_clusters clusters remain, and
    their members are the points 0 .. N-1, each once. *)
Lemma returns_record data method num_clusters :
  method = "single"%string \/ method = "complete"%string ->
  1 <= num_clusters < Py.len data ->
  Forall below_infinity (compute_distance_matrix data) ->
  exists rows final,
    hierarchical_clustering data method num_clusters = Some (Ok (rows, final))
    /\ Py.len rows = Py.len data - num_clusters
    /\ Py.len final = num_clusters
    /\ Permutation (concat (map snd final)) (map Z.of_nat (seq 0 (length data))).
Proof.
  intros Hmethod [Hk1 Hk2] Hdv.
  assert (Hex : exists rows final,
            hierarchical_clustering data method num_clusters
            = Some (Ok (rows, final))).
  { unfold hierarchical_clustering.
    destruct (while_loop_total data method num_clusters Hmethod Hk1
                (S (length data)) (initial_state data)) as (st & Hloop).
    - constructor.
    - exact Hdv.
    - rewrite initial_clusters_length. lia.
    - rewrite Hloop.
      pose proof (while_loop_reachable _ _ _ _ _ _ (reach_initial data method)
                    Hloop) as [Hr Hexit].
      pose proof (reachable_counts _ _ _ Hr) as [Hcount _].
      destruct (linkage_matrix st) as [|r l] eqn:Hl.
      + unfold Py.len in *. simpl in Hcount. lia.
      + cbn [sorted_linkage bind]. eauto. }
  destruct Hex as (rows & final & H). exists rows, final.
  split; [exact H |]. now apply returned_lengths in H.
Qed.

Example returns_record_four_points :
  exists rows final,
    hierarchical_clustering four_points "complete" 2 = Some (Ok (rows, final))
    /\ Py.len rows = Py.len four_points - 2
    /\ Py.len final = 2
    /\ Permutation (concat (map snd final))
                   (map Z.of_nat (seq 0 (length four_points))).
Proof.
  apply returns_record.
  - now right.
  - vm_compute. split; [discriminate | reflexivity].
  - repeat constructor.
Qed.

(** * Further properties of the code *)

(** ** The order of binary64 numbers *)

Ltac compare_cases :=
  repeat match goal with
  | |- context [Z.compare ?a ?b] => destruct (Z.compare_spec a b); subst
  | H : context [Z.compare ?a ?b] |- _ => destruct (Z.compare_spec a b); subst
  | |- context [Pos.compare_cont Eq ?a ?b] =>
      change (Pos.compare_cont Eq a b) with (Pos.compare a b);
      destruct (Pos.compare_spec a b); subst
  | H : context [Pos.compare_cont Eq ?a ?b] |- _ =>
      change (Pos.compare_cont Eq a b) with (Pos.compare a b) in H;
      destruct (Pos.compare_spec a b); subst
  end.

Lemma SFltb_trans x y z :
  SFltb x y = true -> SFltb y z = true -> SFltb x z = true.
Proof.
  unfold SFltb, SFcompare.
  destruct x as [[]|[]| |[] mx ex], y as [[]|[]| |[] my ey],
    z as [[]|[]| |[] mz ez]; simpl; try congruence;
    intros H1 H2; compare_cases; simpl in *; try congruence; try lia.
Qed.

Lemma SFleb_ltb_trans x y z :
  SFleb x y = true -> SFltb y z = true -> SFltb x z = true.
Proof.
  unfold SFltb, SFleb, SFcompare.
  destruct x as [[]|[]| |[] mx ex], y as [[]|[]| |[] my ey],
    z as [[]|[]| |[] mz ez]; simpl; try congruence;
    intros H1 H2; compare_cases; simpl in *; try congruence; try lia.
Qed.

Lemma ltb_trans x y z :
  (x <? y)%float = true -> (y <? z)%float = true -> (x <? z)%float = true.
Proof. rewrite !ltb_spec. apply SFltb_trans. Qed.

Lemma leb_ltb_trans x y z :
  (x <=? y)%float = true -> (y <? z)%float = true -> (x <? z)%float = true.
Proof. rewrite leb_spec, !ltb_spec. apply SFleb_ltb_trans. Qed.

Lemma ltb_asym x y : (x <? y)%float = true -> (y <? x)%float = false.
Proof.
  intros H. apply ltb_leb_false in H.
  destruct (y <? x)%float eqn:E; [| reflexivity].
  apply ltb_leb in E. congruence.
Qed.

Lemma ltb_irrefl x : (x <? x)%float = false.
Proof.
  destruct (x <? x)%float eqn:E; [| reflexivity].
  pose proof (ltb_asym _ _ E). congruence.
Qed.

(** ** The pair the scan selects *)

Lemma scan_pairs_minimum n dv cl pairs :
  forall min_dist0 ab0 min_dist ab',
  scan_pairs n dv cl pairs min_dist0 ab0 = Ok (min_dist, ab') ->
  (min_dist = min_dist0 \/ (min_dist <? min_dist0)%float = true)
  /\ (forall i j d, In (i, j) pairs -> pair_distance n dv cl i j = Ok d ->
        (d <? min_dist)%float = false)
  /\ ((min_dist = min_dist0 /\ ab' = ab0)
      \/ exists a b before after,
           ab' = Some (a, b)
           /\ pairs = before ++ (a, b) :: after
           /\ pair_distance n dv cl a b = Ok min_dist
           /\ (min_dist <? min_dist0)%float = true
           /\ forall i j d, In (i, j) before ->
                pair_distance n dv cl i j = Ok d ->
                (d <=? min_dist)%float = false).
Proof.
  induction pairs as [|[i j] rest IH]; intros md0 ab0 md ab' H.
  - simpl in H. inversion H; subst. repeat split; auto.
    intros i j d [].
  - simpl in H. inv_bind H as x Hx.
    destruct (x <? md0)%float eqn:E.
    + apply IH in H. destruct H as (Hle & Hmin & Hwho).
      assert (Hlt : (md <? md0)%float = true).
      { destruct Hle as [-> | Hle]; [exact E | now apply (ltb_trans _ x)]. }
      split; [now right |]. split.
      * intros i' j' d [Heq | Hin] Hd; [| now apply (Hmin i' j')].
        inversion Heq; subst i' j'. assert (d = x) by congruence. subst d.
        destruct Hle as [-> | Hle]; [apply ltb_irrefl | now apply ltb_asym].
      * right. destruct Hwho as [[-> ->] | (a & b & pre & post & -> & -> & Hab & Hlt' & Hpre)].
        -- exists i, j, [], rest. repeat split; auto. intros i' j' d [].
        -- exists a, b, ((i, j) :: pre), post. repeat split; auto.
           intros i' j' d [Heq | Hin] Hd; [| now apply (Hpre i' j')].
           inversion Heq; subst i' j'. assert (d = x) by congruence. subst d.
           now apply ltb_leb_false.
    + apply IH in H. destruct H as (Hle & Hmin & Hwho).
      split; [exact Hle |]. split.
      * intros i' j' d [Heq | Hin] Hd; [| now apply (Hmin i' j')].
        inversion Heq; subst i' j'. assert (d = x) by congruence. subst d.
        destruct Hle as [-> | Hle]; [exact E |].
        destruct (x <? md)%float eqn:E'; [| reflexivity].
        pose proof (ltb_trans _ _ _ E' Hle). congruence.
      * destruct Hwho as [[-> ->] | (a & b & pre & post & -> & -> & Hab & Hlt' & Hpre)];
          [now left | right].
        exists a, b, ((i, j) :: pre), post. repeat split; auto.
        intros i' j' d [Heq | Hin] Hd; [| now apply (Hpre i' j')].
        inversion Heq; subst i' j'. assert (d = x) by congruence. subst d.
        destruct (x <=? md)%float eqn:E'; [| reflexivity].
        pose proof (leb_ltb_trans _ _ _ E' Hlt'). congruence.
Qed.

(** X1: the pair scan keeps the first pair, in scan order, whose distance
    read is the smallest: no pair's read is below the selected distance, and
    either some read is below infinity, and then [a], [b] are bound to the
    first pair whose read is the selected distance, every pair scanned
    before it reading strictly above it (or not-a-number); or the selected
    distance is infinity and [a], [b] keep their previous binding.  The
    second case is the one that holds when no read is below infinity. *)
Theorem select_pair_first_minimum n st min_dist ab' :
  select_pair n st = Ok (min_dist, ab') ->
  (forall i j d,
     In (i, j) (scan_order (length (clusters st))) ->
     pair_distance n (dist_vector st) (clusters st) i j = Ok d ->
     (d <? min_dist)%float = false)
  /\ ((min_dist = infinity /\ ab' = ab st)
      \/ exists a b before after,
           ab' = Some (a, b)
           /\ scan_order (length (clusters st)) = before ++ (a, b) :: after
           /\ pair_distance n (dist_vector st) (clusters st) a b = Ok min_dist
           /\ (min_dist <? infinity)%float = true
           /\ forall i j d, In (i, j) before ->
                pair_distance n (dist_vector st) (clusters st) i j = Ok d ->
                (d <=? min_dist)%float = false)
  /\ ((forall i j d,
         In (i, j) (scan_order (length (clusters st))) ->
         pair_distance n (dist_vector st) (clusters st) i j = Ok d ->
         (d <? infinity)%float = false) ->
      min_dist = infinity /\ ab' = ab st).
Proof.
  unfold select_pair. intros H. apply scan_pairs_minimum in H.
  destruct H as (_ & Hmin & Hwho). split; [exact Hmin |]. split.
  - destruct Hwho as [H | (a & b & pre & post & H1 & H2 & H3 & H4 & H5)];
      [now left | right].
    exists a, b, pre, post. auto.
  - intros Hnone.
    destruct Hwho as [H | (a & b & pre & post & H1 & H2 & H3 & H4 & H5)];
      [exact H | exfalso].
    assert (Hin : In (a, b) (scan_order (length (clusters st)))).
    { rewrite H2. apply in_or_app. right. now left. }
    rewrite (Hnone a b min_dist Hin H3) in H4. discriminate.
Qed.

Lemma select_pair_first_minimum_witness :
  (forall i j d,
     In (i, j) (scan_order (length (clusters after_first_merge))) ->
     pair_distance 4 (dist_vector after_first_merge)
                   (clusters after_first_merge) i j = Ok d ->
     (d <? 4)%float = false)
  /\ ((4%float = infinity /\ Some (0%nat, 1%nat) = ab after_first_merge)
      \/ exists a b before after,
           Some (0%nat, 1%nat) = Some (a, b)
           /\ scan_order (length (clusters after_first_merge))
              = before ++ (a, b) :: after
           /\ pair_distance 4 (dist_vector after_first_merge)
                            (clusters after_first_merge) a b = Ok 4%float
           /\ (4 <? infinity)%float = true
           /\ forall i j d, In (i, j) before ->
                pair_distance 4 (dist_vector after_first_merge)
                              (clusters after_first_merge) i j = Ok d ->
                (d <=? 4)%float = false)
  /\ ((forall i j d,
         In (i, j) (scan_order (length (clusters after_first_merge))) ->
         pair_distance 4 (dist_vector after_first_merge)
                       (clusters after_first_merge) i j = Ok d ->
         (d <? infinity)%float = false) ->
      4%float = infinity /\ Some (0%nat, 1%nat) = ab after_first_merge).
Proof.
  apply (select_pair_first_minimum 4 after_first_merge 4%float
           (Some (0%nat, 1%nat))).
  vm_compute. reflexivity.
Defined.

(** ** Identifiers and sizes in the record *)

Lemma remove_two_perm {A : Type} (a b : nat) (l : list A) (x y : A) :
  (a < b)%nat -> nth_error l a = Some x -> nth_error l b = Some y ->
  Permutation (remove_two a b l ++ [x; y]) l.
Proof.
  intros Hab Hx Hy. rewrite (split_two a b l x y Hab Hx Hy) at 2.
  unfold remove_two. rewrite <- !app_assoc.
  apply Permutation_app_head. apply Permutation_sym.
  rewrite app_assoc.
  apply (Permutation_cons_app
           (firstn (b - a - 1) (skipn (S a) l) ++ skipn (S b) l) [y] x).
  rewrite <- app_assoc. apply Permutation_app_head.
  apply Permutation_cons_append.
Qed.

Lemma reachable_ids data method st :
  reachable data method st ->
  NoDup (map fst (clusters st) ++ flat_map children (linkage_matrix st))
  /\ Forall (fun z => 0 <= z < index st)
            (map fst (clusters st) ++ flat_map children (linkage_matrix st))
  /\ (forall i e, nth_error (linkage_matrix st) i = Some e ->
        0 <= left_id e < Py.len data + Z.of_nat i
        /\ 0 <= right_id e < Py.len data + Z.of_nat i).
Proof.
  induction 1 as [|st st' Hr IH Hstep].
  - unfold initial_state, Py.range, Py.len; simpl. rewrite app_nil_r, map_map.
    simpl. split; [| split].
    + apply Injective_map_NoDup; [| apply seq_NoDup]. intros x y. apply Nat2Z.inj.
    + apply Forall_map, Forall_forall. intros i Hi. apply in_seq in Hi. lia.
    + intros [|i] e He; discriminate.
  - destruct IH as (Hnd & Hrange & Hpos).
    pose proof (reachable_ab_ordered _ _ _ Hr) as Hord.
    pose proof (reachable_counts _ _ _ Hr) as [_ Hidx].
    apply loop_body_Ok in Hstep.
    destruct Hstep as (md & a & b & ca & cb & nd & Hsel & Ha & Hb & _ & ->).
    apply select_pair_inv in Hsel; [| exact Hord]. destruct Hsel as [_ Hab].
    cbn [clusters linkage_matrix index].
    rewrite without_slots_remove_two by exact Hab.
    assert (Hperm : Permutation
              (map fst (remove_two a b (clusters st) ++ [(index st, snd ca ++ snd cb)])
               ++ flat_map children
                    (linkage_matrix st
                     ++ [(fst ca, fst cb, md, Py.len (snd ca) + Py.len (snd cb))]))
              (index st :: map fst (clusters st)
                           ++ flat_map children (linkage_matrix st))).
    { rewrite map_app, flat_map_app. simpl. unfold left_id, right_id; simpl.
      pose proof (Permutation_map fst (remove_two_perm a b _ ca cb Hab Ha Hb))
        as Hp.
      rewrite map_app in Hp. simpl in Hp. rewrite <- Hp.
      rewrite <- !app_assoc. simpl.
      apply Permutation_sym.
      apply (Permutation_cons_app (map fst (remove_two a b (clusters st)))
               (flat_map children (linkage_matrix st) ++ [fst ca; fst cb])
               (index st)).
      apply Permutation_app_head.
      apply (Permutation_app_comm [fst ca; fst cb]). }
    assert (Hfresh : ~ In (index st)
                       (map fst (clusters st)
                        ++ flat_map children (linkage_matrix st))).
    { intros Hin. rewrite Forall_forall in Hrange.
      specialize (Hrange _ Hin). lia. }
    split; [| split].
    + apply (Permutation_NoDup (Permutation_sym Hperm)). now constructor.
    + apply (Permutation_Forall (Permutation_sym Hperm)). constructor.
      * unfold Py.len in *. lia.
      * eapply Forall_impl; [| exact Hrange]. intros z Hz. simpl in Hz. lia.
    + intros i e He.
      destruct (Nat.lt_ge_cases i (length (linkage_matrix st))) as [Hlt | Hge].
      * rewrite nth_error_app1 in He by exact Hlt. now apply Hpos.
      * rewrite nth_error_app2 in He by exact Hge.
        destruct (i - length (linkage_matrix st))%nat as [|k] eqn:Ek;
          [| destruct k; discriminate].
        simpl in He. inversion He; subst e. unfold left_id, right_id; simpl.
        rewrite Forall_forall in Hrange.
        assert (Hia : In (fst ca) (map fst (clusters st)
                                   ++ flat_map children (linkage_matrix st))).
        { apply in_or_app. left. apply in_map. now apply nth_error_In in Ha. }
        assert (Hib : In (fst cb) (map fst (clusters st)
                                   ++ flat_map children (linkage_matrix st))).
        { apply in_or_app. left. apply in_map. now apply nth_error_In in Hb. }
        apply Hrange in Hia, Hib. unfold Py.len in *. lia.
Qed.

Lemma reachable_valid_linkage data method st :
  reachable data method st -> valid_linkage (Py.len data) (linkage_matrix st).
Proof.
  intros Hr. destruct (reachable_ids _ _ _ Hr) as (Hnd & _ & Hpos).
  split; [exact Hpos |]. now apply NoDup_app_remove_l in Hnd.
Qed.

Lemma reach_after_first_merge : reachable four_points "single" after_first_merge.
Proof.
  apply (reach_merge _ _ (initial_state four_points)); [constructor |].
  vm_compute. reflexivity.
Qed.

(** X2: the merges recorded by the loop, in the order they were made, form
    a valid linkage: merge number i joins two identifiers from 0 to
    N + i - 1 (the new cluster gets N + i), the two are different, and no
    identifier is joined a second time. *)
Theorem recorded_merges_valid data method st :
  reachable data method st ->
  valid_linkage (Py.len data) (linkage_matrix st)
  /\ index st = Py.len data + Py.len (linkage_matrix st)
  /\ Forall (fun id => 0 <= id < index st) (map fst (clusters st))
  /\ NoDup (map fst (clusters st)).
Proof.
  intros Hr. destruct (reachable_ids _ _ _ Hr) as (Hnd & Hrange & _).
  split; [now apply (reachable_valid_linkage _ method) |].
  split; [now apply reachable_counts in Hr |].
  split; [now apply Forall_app in Hrange | now apply NoDup_app_remove_r in Hnd].
Qed.

Lemma recorded_merges_valid_witness :
  valid_linkage (Py.len four_points) (linkage_matrix after_first_merge)
  /\ index after_first_merge
     = Py.len four_points + Py.len (linkage_matrix after_first_merge)
  /\ Forall (fun id => 0 <= id < index after_first_merge)
            (map fst (clusters after_first_merge))
  /\ NoDup (map fst (clusters after_first_merge)).
Proof.
  apply (recorded_merges_valid four_points "single" after_first_merge).
  apply reach_after_first_merge.
Defined.

Lemma member_count_le (c : cluster) (l : list cluster) :
  In c l -> (length (snd c) <= length (concat (map snd l)))%nat.
Proof.
  induction l as [|c' l IH]; intros Hin; [destruct Hin |].
  simpl. rewrite length_app. destruct Hin as [-> | Hin]; [lia |].
  specialize (IH Hin). lia.
Qed.

Lemma members_total data method st :
  reachable data method st ->
  length (concat (map snd (clusters st))) = length data.
Proof.
  intros Hr. rewrite (Permutation_length (reachable_members _ _ _ Hr)).
  now rewrite length_map, length_seq.
Qed.

(** X3: the sizes of the active clusters always add up to the number of
    points, and every recorded merge has a size from 2 to N. *)
Theorem recorded_sizes data method st :
  reachable data method st ->
  fold_right Z.add 0 (map (fun c => Py.len (snd c)) (clusters st)) = Py.len data
  /\ Forall (fun e => 2 <= event_size e <= Py.len data) (linkage_matrix st).
Proof.
  intros Hr. split.
  - unfold Py.len. rewrite <- (members_total _ _ _ Hr).
    induction (clusters st) as [|c l IH]; [reflexivity |].
    simpl. rewrite length_app, IH. lia.
  - induction Hr as [|st st' Hr IH Hstep]; [constructor |].
    pose proof (reachable_nonempty _ _ _ Hr) as Hne.
    pose proof (members_total _ _ _ Hr) as Htot.
    pose proof (reachable_ab_ordered _ _ _ Hr) as Hord.
    apply loop_body_Ok in Hstep.
    destruct Hstep as (md & a & b & ca & cb & nd & Hsel & Ha & Hb & _ & ->).
    apply select_pair_inv in Hsel; [| exact Hord]. destruct Hsel as [_ Hab].
    simpl. apply Forall_app. split; [exact IH |].
    constructor; [| constructor]. unfold event_size; simpl.
    rewrite Forall_forall in Hne.
    pose proof (Hne ca (nth_error_In _ _ Ha)) as Hca.
    pose proof (Hne cb (nth_error_In _ _ Hb)) as Hcb.
    pose proof (remove_two_members a b _ ca cb Hab Ha Hb) as Hperm.
    apply Permutation_length in Hperm.
    rewrite map_app, concat_app, !length_app in Hperm. simpl in Hperm.
    rewrite app_nil_r, length_app in Hperm.
    unfold Py.len. destruct (snd ca), (snd cb); try congruence; simpl in *; lia.
Qed.

Lemma recorded_sizes_witness :
  fold_right Z.add 0 (map (fun c => Py.len (snd c)) (clusters after_first_merge))
  = Py.len four_points
  /\ Forall (fun e => 2 <= event_size e <= Py.len four_points)
            (linkage_matrix after_first_merge).
Proof.
  apply (recorded_sizes four_points "single" after_first_merge).
  apply reach_after_first_merge.
Defined.

(** ** Distances under single and complete linkage *)

Lemma get_In {A : Type} (l : list A) (k : Z) (x : A) :
  Py.get l k = Ok x -> In x l.
Proof.
  unfold Py.get. destruct ((if k <? 0 then k + Py.len l else k) <? 0);
    [discriminate |].
  destruct (nth_error l _) as [y|] eqn:E; [| discriminate].
  intros H. inversion H; subst. now apply nth_error_In in E.
Qed.

Lemma pair_distance_In n dv cl i j d :
  pair_distance n dv cl i j = Ok d -> In d dv.
Proof.
  unfold pair_distance. intros H.
  inv_bind H as ci Hci. inv_bind H as pi Hpi.
  inv_bind H as cj Hcj. inv_bind H as pj Hpj. now apply get_In in H.
Qed.

Lemma update_loop_In body a b slots :
  forall acc new_distances,
  update_loop body a b slots acc = Ok new_distances ->
  forall d, In d new_distances -> In d acc \/ exists i, body i = Ok d.
Proof.
  induction slots as [|i rest IH]; intros acc nd H d Hd; simpl in H.
  - inversion H; subst. now left.
  - destruct (negb (Nat.eqb i a) && negb (Nat.eqb i b)).
    + inv_bind H as x Hx. destruct (IH _ _ H d Hd) as [Hin | Hex]; [| now right].
      apply in_app_or in Hin. destruct Hin as [Hin | [<- | []]]; eauto.
    + now apply (IH _ _ H).
Qed.

Lemma new_dist_for_min_max dv n a b sa sb cl method i d :
  method = "single"%string \/ method = "complete"%string ->
  new_dist_for dv n a b sa sb cl method i = Ok d -> In d dv.
Proof.
  intros Hm H. unfold new_dist_for in H.
  inv_bind H as da Hda. inv_bind H as db Hdb.
  apply get_In in Hda, Hdb.
  destruct Hm as [-> | ->]; simpl in H; inversion H; subst d;
    unfold py_min, py_max.
  - now destruct (db <? da)%float.
  - now destruct (da <? db)%float.
Qed.

Lemma reachable_closed data method st :
  method = "single"%string \/ method = "complete"%string ->
  reachable data method st ->
  Forall (fun d => In d (compute_distance_matrix data)) (dist_vector st)
  /\ Forall (fun e => event_distance e = infinity
                      \/ In (event_distance e) (compute_distance_matrix data))
            (linkage_matrix st).
Proof.
  intros Hm. induction 1 as [|st st' Hr IH Hstep].
  - split; [| constructor]. apply Forall_forall. auto.
  - destruct IH as [Hdv Hrec]. apply loop_body_Ok in Hstep.
    destruct Hstep as (md & a & b & ca & cb & nd & Hsel & _ & _ & Hupd & ->).
    cbn [dist_vector linkage_matrix]. split.
    + rewrite app_assoc. apply Forall_app. split; [now apply slices_Forall |].
      apply Forall_forall. intros d Hd.
      unfold update_distance_matrix in Hupd.
      inv_bind Hupd as ca' Hca. inv_bind Hupd as cb' Hcb.
      destruct (update_loop_In _ _ _ _ _ _ Hupd d Hd) as [[] | [i Hi]].
      apply (new_dist_for_min_max _ _ _ _ _ _ _ _ _ _ Hm) in Hi.
      rewrite Forall_forall in Hdv. now apply Hdv.
    + apply Forall_app. split; [exact Hrec |]. constructor; [| constructor].
      unfold event_distance; simpl.
      unfold select_pair in Hsel. apply scan_pairs_minimum in Hsel.
      destruct Hsel as (_ & _ & [[-> _] | (a' & b' & pre & post & _ & _ & Hd & _)]);
        [now left | right].
      apply pair_distance_In in Hd. rewrite Forall_forall in Hdv. now apply Hdv.
Qed.

(** X4: with single or complete linkage no new distance value is ever made:
    every distance in the returned record is one of the pairwise distances
    of the input points (or infinity, when a scan found nothing below it). *)
Theorem single_complete_distances_are_input data method num_clusters rows final :
  method = "single"%string \/ method = "complete"%string ->
  hierarchical_clustering data method num_clusters = Some (Ok (rows, final)) ->
  Forall (fun row => distance_of row = infinity
                     \/ In (distance_of row) (compute_distance_matrix data))
         rows.
Proof.
  intros Hm H. apply hierarchical_clustering_Ok in H.
  destruct H as (st & Hr & _ & _ & -> & _).
  apply (Permutation_Forall (Permutation_sym (sort_by_distance_perm _))).
  apply Forall_map. destruct (reachable_closed _ _ _ Hm Hr) as [_ Hrec].
  eapply Forall_impl; [| exact Hrec].
  intros [[[ida idb] d] sz] Hd. exact Hd.
Qed.

Lemma single_complete_distances_are_input_witness :
  Forall (fun row => distance_of row = infinity
                     \/ In (distance_of row) (compute_distance_matrix four_points))
         [[0; 1; 1; 2]; [2; 3; 4; 2]; [4; 5; 4; 4]]%float.
Proof.
  apply (single_complete_distances_are_input four_points "single" 1 _
           [(6, [0; 1; 2; 3])]).
  - now left.
  - vm_compute. reflexivity.
Defined.

(** ** Requests the loop cannot meet *)

Lemma while_loop_never_below data method num_clusters st :
  num_clusters <= 0 -> num_clusters < Py.len data ->
  while_loop (S (length data)) (Py.len data) method num_clusters
             (initial_state data) <> Some (Ok st).
Proof.
  intros Hk HN Hloop.
  apply while_loop_reachable in Hloop; [| constructor].
  destruct Hloop as [Hr Hexit].
  pose proof (members_total _ _ _ Hr) as Htot.
  unfold Py.len in *.
  destruct (clusters st) as [|c l]; simpl in *; lia.
Qed.

(** X5: when fewer than one cluster is requested the function never
    returns, it raises.  Unless there is no point at all and zero clusters
    are requested (then no iteration runs and the return statement raises
    IndexError), the exception comes out of an iteration of the loop. *)
Theorem nonpositive_target_raises data method num_clusters :
  num_clusters <= 0 ->
  (exists e, hierarchical_clustering data method num_clusters = Some (Raise e))
  /\ (num_clusters < Py.len data ->
      exists e,
        while_loop (S (length data)) (Py.len data) method num_clusters
                   (initial_state data) = Some (Raise e))
  /\ (Py.len data <= num_clusters ->
      while_loop (S (length data)) (Py.len data) method num_clusters
                 (initial_state data) = Some (Ok (initial_state data))
      /\ hierarchical_clustering data method num_clusters
         = Some (Raise IndexError)).
Proof.
  intros Hk. split; [| split].
  - destruct (hierarchical_clustering data method num_clusters)
      as [[[rows final] | e] |] eqn:H.
    + exfalso. apply returned_lengths in H.
      destruct H as (Hlt & _ & Hlen & Hperm).
      unfold Py.len in *.
      assert (Hfinal : final = [])
        by (destruct final; [reflexivity | simpl in Hlen; lia]).
      subst final. simpl in Hperm. apply Permutation_length in Hperm.
      rewrite length_map, length_seq in Hperm. simpl in *. lia.
    + now exists e.
    + exfalso. now apply hierarchical_clustering_total in H.
  - intros HN.
    destruct (while_loop (S (length data)) (Py.len data) method num_clusters
                (initial_state data)) as [[st|e]|] eqn:Hloop.
    + exfalso. now apply (while_loop_never_below _ _ _ _ Hk HN) in Hloop.
    + now exists e.
    + exfalso. revert Hloop. apply while_loop_fuel; [exact I |].
      rewrite initial_clusters_length. lia.
  - intros HN. split; [| now apply zero_iterations_raise].
    apply while_loop_exit. unfold Py.len in *.
    now rewrite initial_clusters_length.
Qed.

Lemma nonpositive_target_raises_witness :
  (exists e, hierarchical_clustering four_points "single" 0 = Some (Raise e))
  /\ (0 < Py.len four_points ->
      exists e,
        while_loop (S (length four_points)) (Py.len four_points) "single" 0
                   (initial_state four_points) = Some (Raise e))
  /\ (Py.len four_points <= 0 ->
      while_loop (S (length four_points)) (Py.len four_points) "single" 0
                 (initial_state four_points)
      = Some (Ok (initial_state four_points))
      /\ hierarchical_clustering four_points "single" 0
         = Some (Raise IndexError)).
Proof.
  apply (nonpositive_target_raises four_points "single" 0). lia.
Defined.

(** X6: the loop always comes to an end: the function returns or raises,
    after at most one iteration per input point. *)
Theorem loop_ends data method num_clusters :
  (exists rows final,
     hierarchical_clustering data method num_clusters = Some (Ok (rows, final)))
  \/ (exists e, hierarchical_clustering data method num_clusters = Some (Raise e)).
Proof.
  destruct (hierarchical_clustering data method num_clusters)
    as [[[rows final] | e] |] eqn:H.
  - left. eauto.
  - right. eauto.
  - exfalso. now apply hierarchical_clustering_total in H.
Qed.

(** X7: whenever the function returns, fewer clusters were requested than
    there are points, the record has one row per merge, N - num_clusters in
    all, exactly num_clusters clusters are left, and their member lists
    hold every point index 0 .. N-1 exactly once. *)
Theorem returned_record_shape data method num_clusters rows final :
  hierarchical_clustering data method num_clusters = Some (Ok (rows, final)) ->
  num_clusters < Py.len data
  /\ Py.len rows = Py.len data - num_clusters
  /\ Py.len final = num_clusters
  /\ Permutation (concat (map snd final)) (map Z.of_nat (seq 0 (length data))).
Proof. apply returned_lengths. Qed.

Lemma returned_record_shape_witness :
  1 < Py.len four_points
  /\ Py.len [[0; 1; 1; 2]; [2; 3; 4; 2]; [4; 5; 4; 4]]%float
     = Py.len four_points - 1
  /\ Py.len [(6, [0; 1; 2; 3])] = 1
  /\ Permutation (concat (map snd [(6, [0; 1; 2; 3])]))
                 (map Z.of_nat (seq 0 (length four_points))).
Proof.
  apply (returned_record_shape four_points "single" 1).
  vm_compute. reflexivity.
Defined.

(** X8: with single or complete linkage, all pairwise distances below
    infinity and a requested number of clusters from 1 to N - 1, the
    function does return a record. *)
Theorem single_complete_returns data method num_clusters :
  method = "single"%string \/ method = "complete"%string ->
  1 <= num_clusters < Py.len data ->
  Forall below_infinity (compute_distance_matrix data) ->
  exists rows final,
    hierarchical_clustering data method num_clusters = Some (Ok (rows, final)).
Proof.
  intros Hm Hk Hdv.
  destruct (returns_record data method num_clusters Hm Hk Hdv)
    as (rows & final & H & _).
  eauto.
Qed.

Lemma single_complete_returns_witness :
  exists rows final,
    hierarchical_clustering four_points "complete" 2 = Some (Ok (rows, final)).
Proof.
  apply (single_complete_returns four_points "complete" 2).
  - now right.
  - vm_compute. split; [discriminate | reflexivity].
  - repeat constructor.
Defined.

(** X9: an iteration that starts with m active clusters takes one entry
    out of the distance array and appends m - 2 new ones, so that the
    array's length changes by m - 3 (it never shrinks by a row). *)
Theorem iteration_changes_array_length data method st st' :
  reachable data method st ->
  loop_body (Py.len data) method st = Ok st' ->
  (length (dist_vector st') + 3
   = length (dist_vector st) + length (clusters st))%nat.
Proof.
  intros Hr Hstep.
  apply (loop_body_dist_vector data method); auto.
  apply (reachable_dist_vector data method); [exact Hr |].
  pose proof (reachable_ab_ordered _ _ _ Hr) as Hord.
  destruct (loop_body_Ok _ _ _ _ Hstep)
    as (md & a & b & ca & cb & nd & Hsel & _ & Hb & _).
  apply select_pair_inv in Hsel; [| exact Hord].
  assert (b < length (clusters st))%nat by (apply nth_error_Some; congruence).
  lia.
Qed.

Lemma iteration_changes_array_length_witness :
  (length (dist_vector after_first_merge) + 3
   = length (dist_vector (initial_state four_points))
     + length (clusters (initial_state four_points)))%nat.
Proof.
  apply (iteration_changes_array_length four_points "single"
           (initial_state four_points) after_first_merge).
  - constructor.
  - vm_compute. reflexivity.
Defined.

(** ** Positions in the condensed array *)

Lemma packed_position_injective n i j i' j' :
  0 <= i -> i < j -> j < n -> 0 <= i' -> i' < j' -> j' < n ->
  n * i - i * (i + 1) / 2 + (j - i - 1)
  = n * i' - i' * (i' + 1) / 2 + (j' - i' - 1) ->
  i = i' /\ j = j'.
Proof.
  intros Hi Hij Hj Hi' Hij' Hj' H.
  pose proof (triangular_even i Hi) as He.
  pose proof (triangular_even i' Hi') as He'.
  set (q := i * (i + 1) / 2) in *. set (q' := i' * (i' + 1) / 2) in *.
  assert (Hii : i = i').
  { destruct (Z.lt_trichotomy i i') as [Hlt | [Heq | Hgt]];
      [| exact Heq |]; exfalso.
    - assert (Hd : 1 <= i' - i) by lia. nia.
    - assert (Hd : 1 <= i - i') by lia. nia. }
  subst i'. split; [reflexivity | lia].
Qed.

(** X10: for n slots, the condensed index sends every pair of different
    slots to a position from 0 to n(n-1)/2 - 1, and two pairs share a
    position only when they are the same pair, in either order. *)
Theorem condensed_index_unique n i j i' j' :
  0 <= i < n -> 0 <= j < n -> i <> j ->
  0 <= i' < n -> 0 <= j' < n -> i' <> j' ->
  0 <= _condensed_index n i j < n * (n - 1) / 2
  /\ (_condensed_index n i j = _condensed_index n i' j' ->
      (i = i' /\ j = j') \/ (i = j' /\ j = i')).
Proof.
  intros Hi Hj Hij Hi' Hj' Hij'. unfold _condensed_index. split.
  - assert (Hdiv : forall k, 2 * k + 2 <= n * (n - 1) -> k < n * (n - 1) / 2).
    { intros k Hk. apply Z.lt_le_trans with (k + 1); [lia |].
      apply Z.div_le_lower_bound; lia. }
    destruct (i <? j) eqn:E1.
    + destruct (packed_position_range n i j) as [H0 H1]; try lia.
      split; [exact H0 | now apply Hdiv].
    + destruct (i >? j) eqn:E2; [| lia].
      destruct (packed_position_range n j i) as [H0 H1]; try lia.
      split; [exact H0 | now apply Hdiv].
  - destruct (i <? j) eqn:E1, (i' <? j') eqn:E1';
      [| destruct (i' >? j') eqn:E2'; [| lia]
       | destruct (i >? j) eqn:E2; [| lia]
       | destruct (i >? j) eqn:E2; [| lia];
         destruct (i' >? j') eqn:E2'; [| lia] ];
      intros H.
    + left. apply (packed_position_injective n); auto; lia.
    + right. apply (packed_position_injective n) in H; try lia.
    + right. apply (packed_position_injective n) in H; try lia.
    + left. apply (packed_position_injective n) in H; try lia.
Qed.

Lemma condensed_index_unique_witness :
  0 <= _condensed_index 4 1 3 < 4 * (4 - 1) / 2
  /\ (_condensed_index 4 1 3 = _condensed_index 4 3 1 ->
      (1 = 3 /\ 3 = 1) \/ (1 = 1 /\ 3 = 3)).
Proof.
  apply (condensed_index_unique 4 1 3 3 1); lia.
Defined.

(** ** Identifiers stored as floats *)

Lemma digits2_pos_lower m : 2 ^ (Zpos (digits2_pos m) - 1) <= Zpos m.
Proof.
  induction m as [m IH|m IH|]; simpl digits2_pos.
  - rewrite Pos2Z.inj_succ.
    replace (Z.succ (Zpos (digits2_pos m)) - 1)
      with (Z.succ (Zpos (digits2_pos m) - 1)) by lia.
    rewrite Z.pow_succ_r by lia. lia.
  - rewrite Pos2Z.inj_succ.
    replace (Z.succ (Zpos (digits2_pos m)) - 1)
      with (Z.succ (Zpos (digits2_pos m) - 1)) by lia.
    rewrite Z.pow_succ_r by lia. lia.
  - simpl. lia.
Qed.

Lemma iter_xO_digits m k :
  digits2_pos (Pos.iter xO m k) = (digits2_pos m + k)%positive.
Proof.
  induction k as [|k IH] using Pos.peano_ind.
  - simpl. lia.
  - rewrite Pos.iter_succ. simpl. rewrite IH. lia.
Qed.

Lemma iter_xO_value m k : Zpos (Pos.iter xO m k) = Zpos m * 2 ^ Zpos k.
Proof.
  induction k as [|k IH] using Pos.peano_ind.
  - simpl. lia.
  - rewrite Pos.iter_succ, Pos2Z.inj_xO, IH, Pos2Z.inj_succ.
    rewrite Z.pow_succ_r by lia. ring.
Qed.

Lemma binary_round_aux_exact s m e :
  digits2_pos m = 53%positive -> -1074 <= e <= 971 ->
  binary_round_aux prec emax s (Zpos m) e loc_Exact = S754_finite s m e.
Proof.
  intros Hd He. unfold binary_round_aux.
  assert (Hs : shr_fexp prec emax (Zpos m) e loc_Exact
               = ({| shr_m := Zpos m; shr_r := false; shr_s := false |}, e)).
  { unfold shr_fexp, Zdigits2. rewrite Hd.
    unfold fexp, SpecFloat.emin, prec, emax.
    replace (Z.max (53 + e - 53) (3 - 1024 - 53) - e) with 0 by lia.
    reflexivity. }
  rewrite Hs. simpl. rewrite Hs. simpl.
  match goal with |- context [?a <=? ?b] => destruct (Z.leb_spec a b) end;
    [reflexivity | unfold emax, prec in *; lia].
Qed.

Lemma binary_normalize_small m :
  Zpos m < 2 ^ 53 ->
  exists mz k,
    0 <= k
    /\ binary_normalize prec emax (Zpos m) 0 false = S754_finite false mz (- k)
    /\ Zpos mz = Zpos m * 2 ^ k.
Proof.
  intros Hm.
  assert (Hd : Zpos (digits2_pos m) <= 53).
  { pose proof (digits2_pos_lower m) as Hl.
    destruct (Z_le_gt_dec (Zpos (digits2_pos m)) 53) as [H | H]; [exact H |].
    exfalso. assert (2 ^ 53 <= 2 ^ (Zpos (digits2_pos m) - 1))
      by (apply Z.pow_le_mono_r; lia). lia. }
  unfold binary_normalize, binary_round, shl_align.
  unfold fexp, SpecFloat.emin, prec, emax.
  replace (Z.max (Zpos (digits2_pos m) + 0 - 53) (3 - 1024 - 53) - 0)
    with (Zpos (digits2_pos m) - 53) by lia.
  replace (Z.max (Zpos (digits2_pos m) + 0 - 53) (3 - 1024 - 53))
    with (Zpos (digits2_pos m) - 53) by lia.
  destruct (Zpos (digits2_pos m) - 53) as [|p|p] eqn:E; try lia.
  - exists m, 0. split; [lia |]. split; [| simpl; lia].
    change (binary_round_aux 53 1024) with (binary_round_aux prec emax).
    apply binary_round_aux_exact; lia.
  - exists (Pos.iter xO m p), (Zpos p). split; [lia |].
    split; [| apply iter_xO_value].
    change (binary_round_aux 53 1024) with (binary_round_aux prec emax).
    change (- Zpos p) with (Zneg p).
    apply binary_round_aux_exact; [| lia].
    rewrite iter_xO_digits. lia.
Qed.

Lemma int_of_float_of_int z :
  0 <= z < 2 ^ 53 -> int_of_float (of_int z) = Done z.
Proof.
  intros Hz. unfold int_of_float, of_int. rewrite of_uint63_spec.
  assert (Hto : Uint63Axioms.to_Z (Uint63.of_Z z) = z).
  { change (Uint63Axioms.to_Z (Uint63.of_Z z))
      with (Uint63.to_Z (Uint63.of_Z z)).
    rewrite Uint63.of_Z_spec. apply Z.mod_small.
    assert (2 ^ 53 < Uint63.wB) by (vm_compute; reflexivity). lia. }
  rewrite Hto. destruct z as [|m|m]; try lia.
  - reflexivity.
  - destruct (binary_normalize_small m) as (mz & k & Hk & -> & Hv); [lia |].
    f_equal. rewrite Hv.
    rewrite <- Z.shiftr_opp_r, Z.opp_involutive, Z.shiftr_div_pow2 by lia.
    apply Z.div_mul. apply Z.pow_nonzero; lia.
Qed.

Lemma Prim2SF_infinity : Prim2SF infinity = S754_infinity false.
Proof. reflexivity. Qed.

Lemma is_infinity_spec x :
  PrimFloat.is_infinity x = true <-> exists s, Prim2SF x = S754_infinity s.
Proof.
  unfold PrimFloat.is_infinity. rewrite eqb_spec, abs_spec, Prim2SF_infinity.
  destruct (Prim2SF x) as [s|s| |s m e]; simpl; split;
    try discriminate; try (intros [s' H]; discriminate); eauto.
Qed.

Lemma int_of_float_finite x :
  (exists z, int_of_float x = Done z) <-> PrimFloat.is_finite x = true.
Proof.
  unfold PrimFloat.is_finite.
  rewrite negb_true_iff, orb_false_iff.
  fold (is_nan x). rewrite is_nan_false.
  assert (Hinf : PrimFloat.is_infinity x = false
                 <-> ~ exists s, Prim2SF x = S754_infinity s).
  { rewrite <- is_infinity_spec. destruct (PrimFloat.is_infinity x);
      split; congruence. }
  rewrite Hinf. unfold int_of_float.
  destruct (Prim2SF x) as [s|s| |s m e]; split;
    try (intros [z H]; discriminate); try (intros [H1 H2]);
    try congruence; eauto.
  - split; [discriminate | intros [s' H]; discriminate].
  - exfalso. apply H2. eauto.
  - split; [discriminate | intros [s' H]; discriminate].
Qed.

(** ** The dictionary of [get_leaves] *)

Lemma dict_pop_present (l1 l2 : leaf_dict) key v default :
  ~ In key (map fst l1) ->
  dict_pop (l1 ++ (key, v) :: l2) key default = (v, l1 ++ l2).
Proof.
  induction l1 as [|[k w] l1 IH]; simpl; intros Hnot.
  - now rewrite Z.eqb_refl.
  - destruct (Z.eqb_spec k key) as [-> | Hne]; [tauto |].
    rewrite IH by tauto. reflexivity.
Qed.

Lemma dict_pop_absent (d : leaf_dict) key default :
  ~ In key (map fst d) -> dict_pop d key default = (default, d).
Proof.
  induction d as [|[k w] d IH]; simpl; intros Hnot; [reflexivity |].
  destruct (Z.eqb_spec k key) as [-> | Hne]; [tauto |].
  rewrite IH by tauto. reflexivity.
Qed.

Lemma dict_set_fresh (d : leaf_dict) key value :
  ~ In key (map fst d) -> dict_set d key value = d ++ [(key, value)].
Proof.
  induction d as [|[k w] d IH]; simpl; intros Hnot; [reflexivity |].
  destruct (Z.eqb_spec k key) as [-> | Hne]; [tauto |].
  rewrite IH by tauto. reflexivity.
Qed.

Lemma dict_split (d : leaf_dict) key :
  In key (map fst d) -> NoDup (map fst d) ->
  exists l1 v l2, d = l1 ++ (key, v) :: l2 /\ ~ In key (map fst (l1 ++ l2)).
Proof.
  intros Hin Hnd. apply in_map_iff in Hin. destruct Hin as ([k v] & Hk & Hin).
  simpl in Hk. subst k. apply in_split in Hin. destruct Hin as (l1 & l2 & ->).
  exists l1, v, l2. split; [reflexivity |].
  rewrite map_app in *. simpl in Hnd. now apply NoDup_remove_2 in Hnd.
Qed.

Lemma replay_merges_app n rows1 :
  forall i rows2 d,
  replay_merges n i (rows1 ++ rows2) d =
  (d1 <~ replay_merges n i rows1 d ;;
   replay_merges n (i + length rows1) rows2 d1).
Proof.
  induction rows1 as [|row rows1 IH]; intros i rows2 d.
  - simpl. now rewrite Nat.add_0_r.
  - cbn [app replay_merges length].
    destruct row as [|a [|b [|dist [|size [|extra row]]]]]; try reflexivity.
    destruct (int_of_float a) as [ka|e]; [| reflexivity]. cbn [and_then].
    destruct (int_of_float b) as [kb|e]; [| reflexivity]. cbn [and_then].
    rewrite IH. now rewrite Nat.add_succ_r.
Qed.

(** One row whose two identifiers are keys of the dictionary. *)
Lemma replay_row n i (d : leaf_dict) ida idb dist size :
  NoDup (map fst d) ->
  In ida (map fst d) -> In idb (map fst d) -> ida <> idb ->
  Forall (fun k => k < n + Z.of_nat i) (map fst d) ->
  0 <= ida < 2 ^ 53 -> 0 <= idb < 2 ^ 53 ->
  exists l1 va l2 l3 vb l4,
    d = l1 ++ (ida, va) :: l2
    /\ l1 ++ l2 = l3 ++ (idb, vb) :: l4
    /\ replay_merges n i [array_row (ida, idb, dist, size)] d
       = Done (l3 ++ l4 ++ [(n + Z.of_nat i, va ++ vb)]).
Proof.
  intros Hnd Ha Hb Hab Hlt Hra Hrb.
  destruct (dict_split d ida Ha Hnd) as (l1 & va & l2 & Hd & Hna).
  assert (Hnd' : NoDup (map fst (l1 ++ l2))).
  { rewrite Hd in Hnd. rewrite map_app in *. simpl in Hnd.
    now apply NoDup_remove_1 in Hnd. }
  assert (Hb' : In idb (map fst (l1 ++ l2))).
  { rewrite Hd in Hb. rewrite map_app in *. simpl in Hb.
    apply in_app_or in Hb. apply in_or_app.
    destruct Hb as [Hb | [Hb | Hb]]; [now left | congruence | now right]. }
  destruct (dict_split (l1 ++ l2) idb Hb' Hnd') as (l3 & vb & l4 & Hd' & Hnb).
  exists l1, va, l2, l3, vb, l4. split; [exact Hd |]. split; [exact Hd' |].
  cbn [array_row replay_merges].
  rewrite !int_of_float_of_int by assumption. cbn [and_then].
  rewrite Hd, dict_pop_present by (rewrite map_app in Hna; intros H;
    apply Hna, in_or_app; now left).
  cbn [fst snd]. rewrite Hd', dict_pop_present by (rewrite map_app in Hnb;
    intros H; apply Hnb, in_or_app; now left).
  cbn [fst snd]. rewrite dict_set_fresh; [now rewrite <- app_assoc |].
  intros Hin. rewrite Forall_forall in Hlt.
  assert (Hin' : In (n + Z.of_nat i) (map fst d)).
  { rewrite Hd, map_app. simpl. rewrite map_app in Hin.
    assert (Hin12 : In (n + Z.of_nat i) (map fst (l1 ++ l2))).
    { rewrite Hd', map_app. simpl. apply in_app_or in Hin. apply in_or_app.
      destruct Hin; [now left | right; now right]. }
    rewrite map_app in Hin12. apply in_app_or in Hin12. apply in_or_app.
    destruct Hin12; [now left | right; now right]. }
  specialize (Hlt _ Hin'). lia.
Qed.

(** ** Replaying the recorded merges *)

Lemma leaves_dict_initial data :
  leaves_dict (Py.len data) = clusters (initial_state data).
Proof.
  unfold leaves_dict, initial_state, Py.len. simpl. now rewrite Nat2Z.id.
Qed.

Lemma replay_reachable data method st :
  reachable data method st ->
  2 * Py.len data <= 2 ^ 53 ->
  replay_merges (Py.len data) 0 (map array_row (linkage_matrix st))
                (leaves_dict (Py.len data))
  = Done (clusters st).
Proof.
  intros Hr Hbound. induction Hr as [|st st' Hr IH Hstep].
  - simpl. now rewrite leaves_dict_initial.
  - pose proof (reachable_ab_ordered _ _ _ Hr) as Hord.
    pose proof (reachable_counts _ _ _ Hr) as [Hcount Hidx].
    destruct (reachable_ids _ _ _ Hr) as (Hnd & Hrange & _).
    apply NoDup_app_remove_r in Hnd. apply Forall_app in Hrange.
    destruct Hrange as [Hrange _].
    apply loop_body_Ok in Hstep.
    destruct Hstep as (md & a & b & ca & cb & nd & Hsel & Ha & Hb & _ & ->).
    apply select_pair_inv in Hsel; [| exact Hord]. destruct Hsel as [_ Hab].
    cbn [clusters linkage_matrix].
    rewrite map_app, replay_merges_app, IH. cbn [and_then map].
    rewrite length_map. cbn [Nat.add].
    assert (Hin : forall c, In c (clusters st) -> 0 <= fst c < 2 ^ 53).
    { intros c Hc. rewrite Forall_forall in Hrange.
      specialize (Hrange (fst c) (in_map fst _ _ Hc)).
      unfold Py.len in *. lia. }
    cbn [array_row replay_merges].
    rewrite !int_of_float_of_int
      by (apply Hin; eapply nth_error_In; eassumption).
    cbn [and_then].
    rewrite without_slots_remove_two by exact Hab. unfold remove_two.
    set (l1 := firstn a (clusters st)).
    set (l2 := firstn (b - a - 1) (skipn (S a) (clusters st))).
    set (l3 := skipn (S b) (clusters st)).
    assert (Hsplit : clusters st = l1 ++ ca :: l2 ++ cb :: l3)
      by (now apply split_two).
    rewrite Hsplit in Hnd, Hrange. rewrite Hsplit.
    destruct ca as [ida va], cb as [idb vb]. cbn [fst snd] in *.
    assert (Hna : ~ In ida (map fst l1 ++ map fst (l2 ++ (idb, vb) :: l3))).
    { rewrite map_app in Hnd. simpl in Hnd. now apply NoDup_remove_2 in Hnd. }
    rewrite dict_pop_present
      by (intros H; apply Hna, in_or_app; now left).
    cbn [fst snd].
    assert (Hnd2 : NoDup (map fst ((l1 ++ l2) ++ (idb, vb) :: l3))).
    { rewrite map_app in Hnd. simpl in Hnd. apply NoDup_remove_1 in Hnd.
      rewrite <- map_app in Hnd. now rewrite <- app_assoc. }
    rewrite (app_assoc l1 l2).
    assert (Hnb : ~ In idb (map fst ((l1 ++ l2) ++ l3))).
    { rewrite map_app in Hnd2. simpl in Hnd2. apply NoDup_remove_2 in Hnd2.
      now rewrite map_app. }
    rewrite dict_pop_present
      by (intros H; apply Hnb; rewrite map_app; apply in_or_app; now left).
    cbn [fst snd].
    rewrite dict_set_fresh.
    + rewrite <- !app_assoc. unfold Py.len in *.
      replace (Z.of_nat (length data) + Z.of_nat (length (linkage_matrix st)))
        with (index st) by lia.
      reflexivity.
    + intros H. rewrite Forall_forall in Hrange.
      assert (Hin' : In (Py.len data + Z.of_nat (length (linkage_matrix st)))
                        (map fst (l1 ++ (ida, va) :: l2 ++ (idb, vb) :: l3))).
      { rewrite !map_app in *. simpl. rewrite map_app. simpl.
        apply in_app_or in H. destruct H as [H | H].
        - apply in_app_or in H. destruct H as [H | H].
          + apply in_or_app. now left.
          + apply in_or_app. right. right. apply in_or_app. now left.
        - apply in_or_app. right. right. apply in_or_app. right. now right. }
      specialize (Hrange _ Hin'). unfold Py.len in *. simpl in Hrange. lia.
Qed.

(** X11: replaying the recorded merges, in the order the loop made them,
    through [get_leaves] gives back the member lists of the active
    clusters, in the order of the cluster list (identifiers up to 2^53 are
    stored exactly in the float array). *)
Theorem get_leaves_rebuilds_clusters data method st :
  reachable data method st ->
  2 * Py.len data <= 2 ^ 53 ->
  get_leaves (map array_row (linkage_matrix st)) (Py.len data)
  = Done (map snd (clusters st)).
Proof.
  intros Hr Hbound. unfold get_leaves.
  now rewrite (replay_reachable _ _ _ Hr Hbound).
Qed.

Lemma get_leaves_rebuilds_clusters_witness :
  get_leaves (map array_row (linkage_matrix after_first_merge))
             (Py.len four_points)
  = Done (map snd (clusters after_first_merge)).
Proof.
  apply (get_leaves_rebuilds_clusters four_points "single" after_first_merge).
  - apply reach_after_first_merge.
  - vm_compute. discriminate.
Defined.

Lemma Permutation_concat_snd (l l' : leaf_dict) :
  Permutation l l' -> Permutation (concat (map snd l)) (concat (map snd l')).
Proof.
  induction 1 as [|x l l' H IH|x y l|l l' l'' H1 IH1 H2 IH2]; simpl.
  - constructor.
  - now apply Permutation_app_head.
  - rewrite !app_assoc. apply Permutation_app_tail, Permutation_app_comm.
  - now transitivity (concat (map snd l')).
Qed.

Lemma replay_row_perm n i (d : leaf_dict) ida idb dist size :
  NoDup (map fst d) ->
  In ida (map fst d) -> In idb (map fst d) -> ida <> idb ->
  Forall (fun k => k < n + Z.of_nat i) (map fst d) ->
  0 <= ida < 2 ^ 53 -> 0 <= idb < 2 ^ 53 ->
  exists va vb rest,
    Permutation d ((ida, va) :: (idb, vb) :: rest)
    /\ replay_merges n i [array_row (ida, idb, dist, size)] d
       = Done (rest ++ [(n + Z.of_nat i, va ++ vb)]).
Proof.
  intros Hnd Ha Hb Hab Hlt Hra Hrb.
  destruct (replay_row n i d ida idb dist size Hnd Ha Hb Hab Hlt Hra Hrb)
    as (l1 & va & l2 & l3 & vb & l4 & Hd & Hd' & Hrun).
  exists va, vb, (l3 ++ l4). split; [| now rewrite <- app_assoc].
  rewrite Hd. etransitivity; [apply Permutation_sym, Permutation_middle |].
  apply perm_skip. rewrite Hd'. apply Permutation_sym, Permutation_middle.
Qed.

Lemma replay_valid n events :
  forall i (d : leaf_dict),
  NoDup (map fst d) ->
  Forall (fun k => 0 <= k < n + Z.of_nat i) (map fst d) ->
  NoDup (flat_map children events) ->
  (forall j e c, nth_error events j = Some e -> In c (children e) ->
     0 <= c < n + Z.of_nat (i + j)
     /\ (c < n + Z.of_nat i -> In c (map fst d))) ->
  n + Z.of_nat (i + length events) <= 2 ^ 53 ->
  exists d',
    replay_merges n i (map array_row events) d = Done d'
    /\ (length d' + length events = length d)%nat
    /\ Permutation (concat (map snd d')) (concat (map snd d)).
Proof.
  induction events as [|e events IH]; intros i d Hnd Hrange Hch Hpos Hbound.
  - exists d. simpl. repeat split; auto.
  - destruct e as [[[ida idb] dist] size].
    assert (Hida : In ida (children (ida, idb, dist, size))) by (now left).
    assert (Hidb : In idb (children (ida, idb, dist, size)))
      by (right; now left).
    destruct (Hpos 0%nat _ ida eq_refl Hida) as [Hra Hka].
    destruct (Hpos 0%nat _ idb eq_refl Hidb) as [Hrb Hkb].
    rewrite Nat.add_0_r in Hra, Hrb.
    simpl in Hch. unfold left_id, right_id in Hch. simpl in Hch.
    assert (Hab : ida <> idb).
    { intros ->. inversion Hch as [|? ? Hnot _]; subst. apply Hnot. now left. }
    assert (Hb53 : forall c, 0 <= c < n + Z.of_nat i -> 0 <= c < 2 ^ 53).
    { intros c Hc. simpl in Hbound. lia. }
    destruct (replay_row_perm n i d ida idb dist size Hnd (Hka (proj2 Hra))
                (Hkb (proj2 Hrb)) Hab) as (va & vb & rest & Hperm & Hrun);
      [eapply Forall_impl; [| exact Hrange]; simpl; lia | auto | auto |].
    change (map array_row ((ida, idb, dist, size) :: events))
      with ([array_row (ida, idb, dist, size)] ++ map array_row events).
    rewrite replay_merges_app, Hrun. cbn [and_then length].
    assert (Hkeys : Permutation (map fst d) (ida :: idb :: map fst rest))
      by (now apply (Permutation_map fst) in Hperm).
    assert (Hnd3 : NoDup (ida :: idb :: map fst rest))
      by (now apply (Permutation_NoDup Hkeys)).
    assert (Hrange3 : Forall (fun k => 0 <= k < n + Z.of_nat i)
                             (ida :: idb :: map fst rest))
      by (now apply (Permutation_Forall Hkeys)).
    inversion Hnd3 as [|? ? _ Hnd2]; subst. inversion Hnd2 as [|? ? _ Hnd1]; subst.
    inversion Hrange3 as [|? ? _ Hr2]; subst. inversion Hr2 as [|? ? _ Hr1]; subst.
    destruct (IH (i + 1)%nat (rest ++ [(n + Z.of_nat i, va ++ vb)]))
      as (d' & Hd' & Hlen & Hmem).
    + rewrite map_app. simpl.
      apply Permutation_NoDup with (l := (n + Z.of_nat i) :: map fst rest).
      * apply Permutation_cons_append.
      * constructor; [| exact Hnd1]. intros Hin. rewrite Forall_forall in Hr1.
        specialize (Hr1 _ Hin). lia.
    + rewrite map_app. apply Forall_app. split.
      * eapply Forall_impl; [| exact Hr1]. simpl. lia.
      * repeat constructor; simpl; lia.
    + inversion Hch as [|? ? _ Hch1]; subst. now inversion Hch1.
    + intros j e c He Hc.
      destruct (Hpos (S j) e c He Hc) as [Hrc Hkc].
      split; [replace (i + 1 + j)%nat with (i + S j)%nat by lia; exact Hrc |].
      intros Hlt. rewrite map_app. apply in_or_app.
      destruct (Z.eq_dec c (n + Z.of_nat i)) as [-> | Hne];
        [right; now left | left].
      assert (Hcd : In c (map fst d)) by (apply Hkc; lia).
      apply (Permutation_in _ Hkeys) in Hcd.
      assert (Hcin : In c (flat_map children events)).
      { apply in_flat_map. exists e. split; [| exact Hc].
        now apply nth_error_In in He. }
      destruct Hcd as [<- | [<- | Hcd]]; [| | exact Hcd]; exfalso.
      * inversion Hch as [|? ? Hnot _]; subst. apply Hnot. now right.
      * inversion Hch as [|? ? _ Hch1]; subst.
        inversion Hch1 as [|? ? Hnot _]; subst. now apply Hnot.
    + simpl in Hbound. lia.
    + exists d'. split; [exact Hd' |]. split.
      * rewrite length_app in Hlen. simpl in Hlen.
        apply Permutation_length in Hperm. simpl in Hperm. simpl. lia.
      * rewrite Hmem. rewrite (Permutation_concat_snd _ _ Hperm).
        rewrite map_app, concat_app. simpl. rewrite app_nil_r.
        rewrite (app_assoc va vb (concat (map snd rest))).
        apply Permutation_app_comm.
Qed.

(** X12: for a valid linkage over n leaves (every merge joins two different
    identifiers that exist when it is replayed, and none twice, as in the
    records SciPy produces), [get_leaves] returns n minus the number of
    merges lists, which together hold every leaf 0 .. n-1 exactly once.
    With n - 1 merges this is a single list of all leaves. *)
Theorem get_leaves_partition (n : nat) events :
  valid_linkage (Z.of_nat n) events ->
  Z.of_nat n + Py.len events <= 2 ^ 53 ->
  exists parts,
    get_leaves (map array_row events) (Z.of_nat n) = Done parts
    /\ (length parts + length events = n)%nat
    /\ Permutation (concat parts) (map Z.of_nat (seq 0 n)).
Proof.
  intros [Hpos Hch] Hbound. unfold get_leaves.
  assert (Hkeys : map fst (leaves_dict (Z.of_nat n)) = map Z.of_nat (seq 0 n)).
  { unfold leaves_dict, Py.range. rewrite Nat2Z.id, map_map. reflexivity. }
  assert (Hvals : concat (map snd (leaves_dict (Z.of_nat n)))
                  = map Z.of_nat (seq 0 n)).
  { unfold leaves_dict, Py.range. rewrite Nat2Z.id, map_map. simpl.
    clear. generalize (seq 0 n) as l.
    induction l as [|x l IHl]; simpl; [reflexivity | now rewrite IHl]. }
  destruct (replay_valid (Z.of_nat n) events 0 (leaves_dict (Z.of_nat n)))
    as (d' & Hrun & Hlen & Hmem).
  - rewrite Hkeys. apply Injective_map_NoDup; [| apply seq_NoDup].
    intros x y. apply Nat2Z.inj.
  - rewrite Hkeys. apply Forall_map, Forall_forall.
    intros x Hx. apply in_seq in Hx. lia.
  - exact Hch.
  - intros j e c He Hc. destruct (Hpos j e He) as [Hl Hr].
    assert (Hrc : 0 <= c < Z.of_nat n + Z.of_nat j).
    { destruct Hc as [<- | [<- | []]]; assumption. }
    split; [simpl; exact Hrc |].
    intros Hlt. rewrite Hkeys. apply in_map_iff.
    exists (Z.to_nat c). split; [lia | apply in_seq; lia].
  - unfold Py.len in Hbound. simpl. exact Hbound.
  - exists (map snd d'). rewrite Hrun. cbn [and_then].
    split; [reflexivity |]. split.
    + rewrite length_map. unfold leaves_dict, Py.range in Hlen.
      rewrite length_map, length_seq, Nat2Z.id in Hlen. exact Hlen.
    + now rewrite Hmem, Hvals.
Qed.

Lemma get_leaves_partition_witness :
  exists parts,
    get_leaves (map array_row [(0, 1, 1%float, 2); (2, 3, 4%float, 2);
                               (4, 5, 4%float, 4)])
               (Z.of_nat 4) = Done parts
    /\ (length parts + length [(0, 1, 1%float, 2); (2, 3, 4%float, 2);
                               (4, 5, 4%float, 4)] = 4)%nat
    /\ Permutation (concat parts) (map Z.of_nat (seq 0 4)).
Proof.
  apply (get_leaves_partition 4 [(0, 1, 1%float, 2); (2, 3, 4%float, 2);
                                 (4, 5, 4%float, 4)]).
  - split.
    + intros i e He.
      do 3 (destruct i as [|i];
            [injection He as <-; unfold left_id, right_id; simpl; lia |]).
      destruct i; discriminate.
    + unfold children, left_id, right_id; simpl.
      repeat constructor; simpl; intuition discriminate.
  - vm_compute. discriminate.
Defined.

(** ** What [get_leaves] accepts *)

Lemma replay_merges_returns n rows :
  forall i d,
  (exists d', replay_merges n i rows d = Done d') <-> Forall readable_row rows.
Proof.
  induction rows as [|row rows IH]; intros i d.
  - simpl. split; [constructor | eauto].
  - cbn [replay_merges]. split.
    + intros [d' H].
      destruct row as [|a [|b [|dist [|size [|extra row]]]]]; try discriminate.
      destruct (int_of_float a) as [ka|e] eqn:Ea; [| discriminate].
      destruct (int_of_float b) as [kb|e] eqn:Eb; [| discriminate].
      cbn [and_then] in H. constructor.
      * exists a, b, dist, size. split; [reflexivity |].
        split; apply int_of_float_finite; eauto.
      * eapply IH. eauto.
    + intros H. inversion H as [|? ? Hrow Hrows]; subst.
      destruct Hrow as (a & b & dist & size & -> & Ha & Hb).
      apply int_of_float_finite in Ha, Hb.
      destruct Ha as [ka ->], Hb as [kb ->]. cbn [and_then].
      now apply IH.
Qed.

(** X13: [get_leaves] returns exactly when every row has four entries and
    its two identifiers are numbers (not not-a-number, not infinite); an
    identifier that is not a key of the dictionary is no error, it is taken
    as a leaf of its own. *)
Theorem get_leaves_returns_iff rows num_leaves :
  (exists final_order, get_leaves rows num_leaves = Done final_order)
  <-> Forall readable_row rows.
Proof.
  rewrite <- (replay_merges_returns num_leaves rows 0 (leaves_dict num_leaves)).
  unfold get_leaves. split.
  - intros [parts H].
    destruct (replay_merges num_leaves 0 rows (leaves_dict num_leaves));
      [eauto | discriminate].
  - intros [d' ->]. cbn [and_then]. eauto.
Qed.

(** ** From the clustering to the leaves of the dendrogram *)

Lemma insert_row_head row rows :
  match rows with
  | [] => True
  | next :: _ => np_lt (distance_of next) (distance_of row) = false
  end ->
  insert_row row rows = row :: rows.
Proof.
  destruct rows as [|next rows]; simpl; [reflexivity |].
  now intros ->.
Qed.

Lemma sort_strictly_increasing events :
  strictly_increasing events ->
  sort_by_distance (map array_row events) = map array_row events.
Proof.
  induction 1 as [|e events Hs IH Hhd]; [reflexivity |].
  cbn [map sort_by_distance fold_right].
  fold (sort_by_distance (map array_row events)). rewrite IH.
  apply insert_row_head.
  destruct events as [|e' events]; [exact I |].
  inversion Hhd as [|? ? Hlt]; subst. cbn [map].
  destruct e as [[[ida idb] d] sz], e' as [[[ida' idb'] d'] sz'].
  unfold event_distance in Hlt. simpl in Hlt. unfold np_lt, distance_of.
  cbn [nth array_row].
  rewrite (ltb_asym _ _ Hlt). apply ltb_not_nan in Hlt.
  destruct Hlt as [-> _]. reflexivity.
Qed.

(** X14: when a full clustering (one final cluster, at least two points)
    recorded merges whose distances strictly increase, the returned matrix
    is the record in that order, and [plot_dendrogram]'s leaf
    reconstruction on it, with num_leaves = number of rows + 1, gives a
    single list: the members of the final cluster, every point once. *)
Theorem leaves_order_after_clustering data method events :
  recorded_merges data method 1 = Some events ->
  2 <= Py.len data -> 2 * Py.len data <= 2 ^ 53 ->
  strictly_increasing events ->
  exists id members,
    hierarchical_clustering data method 1
    = Some (Ok (map array_row events, [(id, members)]))
    /\ leaves_order (map array_row events) = Done [members]
    /\ Permutation members (map Z.of_nat (seq 0 (length data))).
Proof.
  unfold recorded_merges. intros Hrec HN Hbound Hinc.
  destruct (while_loop _ _ _ _ _) as [[st|e]|] eqn:Hloop; try discriminate.
  injection Hrec as <-.
  pose proof (while_loop_reachable _ _ _ _ _ _ (reach_initial data method) Hloop)
    as [Hr Hexit].
  pose proof (reachable_counts _ _ _ Hr) as [Hcount _].
  assert (Hne : linkage_matrix st <> []).
  { intros E. rewrite E in Hcount. unfold Py.len in *. simpl in Hcount. lia. }
  assert (Hrun : hierarchical_clustering data method 1
                 = Some (Ok (map array_row (linkage_matrix st), clusters st))).
  { unfold hierarchical_clustering. rewrite Hloop.
    destruct (linkage_matrix st) as [|r l] eqn:El; [congruence |].
    cbn [sorted_linkage bind]. rewrite <- El in *.
    now rewrite sort_strictly_increasing. }
  pose proof (returned_lengths _ _ _ _ _ Hrun) as (_ & Hrows & Hfinal & Hperm).
  destruct (clusters st) as [|[id members] [|c l]] eqn:Ec;
    unfold Py.len in Hfinal; simpl in Hfinal; try lia.
  exists id, members. split; [exact Hrun |]. split.
  - unfold leaves_order. rewrite Hrows.
    replace (Py.len data - 1 + 1) with (Py.len data) by lia.
    unfold get_leaves. rewrite (replay_reachable _ _ _ Hr Hbound).
    cbn [and_then]. now rewrite Ec.
  - simpl in Hperm. now rewrite app_nil_r in Hperm.
Qed.

Lemma leaves_order_after_clustering_witness :
  exists id members,
    hierarchical_clustering three_points "single" 1
    = Some (Ok (map array_row [(0, 1, 1%float, 2); (2, 3, 2%float, 3)],
                [(id, members)]))
    /\ leaves_order (map array_row [(0, 1, 1%float, 2); (2, 3, 2%float, 3)])
       = Done [members]
    /\ Permutation members (map Z.of_nat (seq 0 (length three_points))).
Proof.
  apply (leaves_order_after_clustering three_points "single"
           [(0, 1, 1%float, 2); (2, 3, 2%float, 3)]).
  - vm_compute. reflexivity.
  - vm_compute. discriminate.
  - vm_compute. discriminate.
  - repeat constructor.
Defined.

(** ** Minimum and maximum of two distances *)

(** X15: for single (complete) linkage the new distance is one of the two
    entries read, the lesser (greater) of the two when both are numbers; a
    not-a-number in d(a,i) is passed on, a not-a-number in d(b,i) is
    ignored in favour of d(a,i). *)
Theorem single_complete_new_distance dv n a b sa sb clusters method i d :
  method = "single"%string \/ method = "complete"%string ->
  new_dist_for dv n a b sa sb clusters method i = Ok d ->
  exists da db,
    Py.get dv (_condensed_index n (Z.of_nat a) (Z.of_nat i)) = Ok da
    /\ Py.get dv (_condensed_index n (Z.of_nat b) (Z.of_nat i)) = Ok db
    /\ (d = da \/ d = db)
    /\ (is_nan da = true \/ is_nan db = true -> d = da)
    /\ (is_nan da = false -> is_nan db = false ->
        if (method =? "single")%string
        then (d <=? da)%float = true /\ (d <=? db)%float = true
        else (da <=? d)%float = true /\ (db <=? d)%float = true).
Proof.
  intros Hm H. unfold new_dist_for in H.
  inv_bind H as da Hda. inv_bind H as db Hdb. exists da, db.
  split; [exact Hda |]. split; [exact Hdb |].
  destruct Hm as [-> | ->]; simpl in H; injection H as <-.
  - split; [| split].
    + unfold py_min. destruct (db <? da)%float; auto.
    + intros Hnan. unfold py_min. destruct (db <? da)%float eqn:E; [| reflexivity].
      apply ltb_not_nan in E. destruct Hnan; destruct E; congruence.
    + intros Ha Hb. simpl. destruct (py_min_least da db Ha Hb) as (H1 & H2 & _).
      auto.
  - split; [| split].
    + unfold py_max. destruct (da <? db)%float; auto.
    + intros Hnan. unfold py_max. destruct (da <? db)%float eqn:E; [| reflexivity].
      apply ltb_not_nan in E. destruct Hnan; destruct E; congruence.
    + intros Ha Hb. simpl. destruct (py_max_greatest da db Ha Hb) as (H1 & H2 & _).
      auto.
Qed.

Lemma single_complete_new_distance_witness :
  exists da db,
    Py.get (dist_vector after_first_merge)
           (_condensed_index 3 (Z.of_nat 0) (Z.of_nat 2)) = Ok da
    /\ Py.get (dist_vector after_first_merge)
              (_condensed_index 3 (Z.of_nat 1) (Z.of_nat 2)) = Ok db
    /\ (4%float = da \/ 4%float = db)
    /\ (is_nan da = true \/ is_nan db = true -> 4%float = da)
    /\ (is_nan da = false -> is_nan db = false ->
        if ("single" =? "single")%string
        then (4 <=? da)%float = true /\ (4 <=? db)%float = true
        else (da <=? 4)%float = true /\ (db <=? 4)%float = true).
Proof.
  apply (single_complete_new_distance (dist_vector after_first_merge) 3 0 1 1 1
           (clusters after_first_merge) "single" 2 4%float).
  - now left.
  - vm_compute. reflexivity.
Defined.
